(** * SASE dashboard: the aggregation pipeline of [scripts/update.py]
    and the recompute functions of the page it generates.

    The Python part ([processar_dados]) is a chain of pandas calls; the
    JavaScript part ([aplicarFiltros], [atualizarKPIs], [atualizarGraficos],
    [atualizarCards]) lives in the HTML template of [gerar_html].  Both are
    embedded as pure functions over lists.

    Conventions of the embedding
    - a pandas cell that may be missing is an [option]: [None] is NaN / NaT;
    - Python [str] and JS strings are [string] (bytes, whose order is the
      order of code points); [upper] acts on the ASCII letters, every rule
      of the classifier being ASCII;
    - the views carry their amounts as exact rationals [Q], the
      non-finite results of a float division kept apart in [pyfloat]: a
      stored sum stands for the value the frame holds, and statements
      about the views say nothing that depends on the order in which
      float64 adds or on how it rounds a quotient.  Where a claim does
      depend on it, the arithmetic is binary64 itself ([F64], on Rocq's
      primitive floats) or its standard model ([Num.fl]);
    - what pandas leaves open is a parameter: what its parsers read in a
      cell ([ler_data], [ler_numero]), the way [astype(str)] treats a
      missing period ([na_policy]) and the way a group sum accumulates
      ([F64.somador]). *)

From Stdlib Require Import ZArith QArith Qround Qabs List String Ascii Bool Lia.
From Stdlib Require Import Permutation Sorted Setoid Morphisms DecimalString Lqa.
From Stdlib Require OrderedTypeEx PrimFloat FloatOps.
Import ListNotations.

Local Open Scope string_scope.
Local Open Scope Z_scope.

(** ** Strings *)

Module Str.

(** [c.upper()] on one ASCII character. *)
Definition upper_ascii (c : ascii) : ascii :=
  let n := nat_of_ascii c in
  if (97 <=? n)%nat && (n <=? 122)%nat then ascii_of_nat (n - 32) else c.

(** [s.upper()] on ASCII text.  Python also maps the letters outside
    ASCII (a sharp s becomes [SS]); those are left as they are here, so a
    description with such a letter is outside the model.  The keys of the
    classifier are ASCII. *)
Fixpoint upper (s : string) : string :=
  match s with
  | EmptyString => EmptyString
  | String c s' => String (upper_ascii c) (upper s')
  end.

(** [p in s] for Python strings, [s.includes(p)] in JS. *)
Fixpoint occurs (p s : string) : bool :=
  String.prefix p s ||
  match s with
  | EmptyString => false
  | String _ s' => occurs p s'
  end.

(** ASCII white space. *)
Definition is_space (c : ascii) : bool :=
  let n := nat_of_ascii c in
  (n =? 32)%nat || (n =? 9)%nat || (n =? 10)%nat || (n =? 13)%nat.

(** A description made of white space only (the empty one included). *)
Fixpoint blank (s : string) : bool :=
  match s with
  | EmptyString => true
  | String c s' => is_space c && blank s'
  end.

End Str.

(** ** Modality classifier ([categorizar_modalidade], update.py 82-104) *)

Module Classifier.

(** The dict literal [modalidades]; a Python dict iterates in insertion
    order, so [.items()] is this list. *)
Definition modalidades : list (string * string) :=
  [ ("MAMOGRAFIA", "Mamografia");
    ("DENSITOMETRIA", "Densitometria");
    ("ULTRASSONOGRAFIA", "Ultrassonografia");
    ("ULTRASSOM", "Ultrassonografia");
    ("RAIO X", "Raio X");
    ("RAIO-X", "Raio X");
    ("RX", "Raio X");
    ("DOPPLER", "Doppler");
    ("DOPPLER VASCULAR", "Doppler");
    ("ECODOPPLER", "Doppler") ].

(** [for chave, valor in items: if chave in exame_upper: return valor];
    [None] when the loop falls through. *)
Fixpoint scan (items : list (string * string)) (exame_upper : string)
  : option string :=
  match items with
  | [] => None
  | (chave, valor) :: rest =>
      if Str.occurs chave exame_upper then Some valor
      else scan rest exame_upper
  end.

(** [exame] is one cell of the column [Exame_Realizado]: [None] is the
    cell for which [pd.isna] holds. *)
Definition categorizar_modalidade (exame : option string) : string :=
  match exame with
  | None => "Outros"
  | Some e =>
      let exame_upper := Str.upper e in
      match scan modalidades exame_upper with
      | Some valor => valor
      | None => "Outros"
      end
  end.

(** *** The classifier in the words of the specification *)

Inductive Modality :=
| Mammography | BoneDensitometry | Ultrasonography | XRay | Doppler | Other.

(** The label under which the code stores each category. *)
Definition label (m : Modality) : string :=
  match m with
  | Mammography => "Mamografia"
  | BoneDensitometry => "Densitometria"
  | Ultrasonography => "Ultrassonografia"
  | XRay => "Raio X"
  | Doppler => "Doppler"
  | Other => "Outros"
  end.

(** The ordered rule table of the specification. *)
Definition rules : list (string * Modality) :=
  [ ("MAMOGRAFIA", Mammography);
    ("DENSITOMETRIA", BoneDensitometry);
    ("ULTRASSONOGRAFIA", Ultrasonography);
    ("ULTRASSOM", Ultrasonography);
    ("RAIO X", XRay);
    ("RAIO-X", XRay);
    ("RX", XRay);
    ("DOPPLER", Doppler);
    ("DOPPLER VASCULAR", Doppler);
    ("ECODOPPLER", Doppler) ].

(** First rule whose substring occurs in the uppercased description. *)
Definition classify (description : option string) : Modality :=
  match description with
  | None => Other
  | Some d =>
      if Str.blank d then Other
      else
        match find (fun r => Str.occurs (fst r) (Str.upper d)) rules with
        | Some r => snd r
        | None => Other
        end
  end.

End Classifier.

(** ** Numbers *)

Module Num.

Local Open Scope Q_scope.

(** A number cell of the snapshot.  A float64 produced by a division is
    finite, or one of the values a division by zero leaves behind (numpy
    does not raise); [Null] is JSON's null, which only the page's deep copy
    of the snapshot can hold. *)
Inductive pyfloat :=
| Fin (q : Q)
| PInf
| NInf
| NaN
| Null.

(** [a / b] on float columns. *)
Definition fdiv (a b : Q) : pyfloat :=
  if Qeq_bool b 0 then
    if Qlt_le_dec 0 a then PInf
    else if Qlt_le_dec a 0 then NInf
    else NaN
  else Fin (a / b).

(** [x * 100] *)
Definition fmul100 (x : pyfloat) : pyfloat :=
  match x with
  | Fin q => Fin (q * 100)
  | other => other
  end.

(** Nearest integer, a tie going to the even neighbour ([np.rint]). *)
Definition rint (x : Q) : Z :=
  let f := Qfloor x in
  match Qcompare (x - inject_Z f) (1 # 2) with
  | Lt => f
  | Gt => (f + 1)%Z
  | Eq => if Z.even f then f else (f + 1)%Z
  end.

(** [Series.round(2)]: numpy scales by 100, applies [rint] and scales
    back; the non-finite values are left as they are. *)
Definition round2 (x : pyfloat) : pyfloat :=
  match x with
  | Fin q => Fin (inject_Z (rint (q * 100)) / 100)
  | other => other
  end.

(** Nearest integer, a tie going up: the rounding the specification
    calls half-up. *)
Definition half_up (x : Q) : Z := Qfloor (x + (1 # 2)).

(** The integer [n] of [Number.prototype.toFixed(2)] for [x >= 0]:
    [n / 100 - x] is as close to zero as possible, the larger [n] on a
    tie. *)
Definition toFixed_n (x : Q) : Z := Qfloor (x * 100 + (1 # 2)).

Definition digits (n : Z) : string :=
  DecimalString.NilZero.string_of_uint (N.to_uint (Z.to_N n)).

Definition two_digits (n : Z) : string :=
  if (n <? 10)%Z then ("0" ++ digits n)%string else digits n.

(** [x.toFixed(2)] for [|x| < 10^21]: the sign is split off first, then
    the digits of [n] are cut two places from the right. *)
Definition toFixed2 (x : Q) : string :=
  let s := if Qlt_le_dec x 0 then "-"%string else ""%string in
  let n := toFixed_n (Qabs x) in
  (s ++ digits (n / 100) ++ "." ++ two_digits (n mod 100))%string.

(** A cell of a numeric column read in a sum: NaN is skipped. *)
Definition nan0 (v : option Q) : Q :=
  match v with
  | Some q => q
  | None => 0
  end.

(** *** Binary64 in the standard model

    Barring overflow and underflow, a binary64 operation returns its
    exact result times [1 + d] for some [d] of absolute value at most
    [2^-53]. *)
Definition u53 : Q := 1 # 9007199254740992.

Definition admissivel (d : Q) : Prop := - u53 <= d /\ d <= u53.

Definition fl (d x : Q) : Q := x * (1 + d).

(** The integer [np.rint] returns inside [.round(2)] on line 125, for a
    row whose gross sum is not 0, when the quotient, the product by 100
    and the scaling by 100 err by [d1], [d2] and [d3]. *)
Definition lucro_n (d1 d2 d3 liquida bruta : Q) : Z :=
  rint (fl d3 (fl d2 (fl d1 (liquida / bruta) * 100) * 100)).

End Num.

(** ** Data model *)

(** [pd.notna] on a cell. *)
Definition notna {A : Type} (c : option A) : bool :=
  match c with
  | Some _ => true
  | None => false
  end.

(** The calendar part of a [datetime64] value. *)
Record Timestamp := { year : Z; month : Z; day : Z }.

Definition digit (n : Z) : ascii := ascii_of_nat (48 + Z.to_nat (n mod 10)).

Definition pad2 (n : Z) : string :=
  String (digit (n / 10)) (String (digit n) EmptyString).

Definition pad4 (n : Z) : string :=
  String (digit (n / 1000)) (String (digit (n / 100)) (pad2 n)).

(** What [astype(str)] makes of a missing period.  Up to pandas 2 the
    cast prints every cell, the missing one too: NaT becomes the ordinary
    three-letter string [NaT].  From pandas 3.0 on [astype(str)] leaves a
    missing cell missing.  The script does not pin its pandas, so the
    views carry the behaviour as a parameter. *)
Inductive na_policy :=
| NaAsText
| NaKept.

Definition politicas : list na_policy := [NaAsText; NaKept].

(** [.dt.to_period('M').astype(str)] on one cell: a period prints as
    [YYYY-MM]. *)
Definition period_str (na : na_policy) (d : option Timestamp)
  : option string :=
  match d with
  | Some t => Some (pad4 (year t) ++ "-" ++ pad2 (month t))
  | None =>
      match na with
      | NaAsText => Some "NaT"
      | NaKept => None
      end
  end.

(** One row of [df] after the type conversions of lines 72-77. *)
Record ExamRecord := {
  Nome_Paciente : option string;
  Data_Realizacao : option Timestamp;
  Convenio : option string;
  Exame_Realizado : option string;
  Valor_Exame : option Q;
  Taxa_Cartao : option Q;
  Percentual_SASE : option Q;
  Percentual_Medico : option Q;
  RDF : option Q
}.

(** The two derived columns of lines 106-107. *)
Definition Modalidade (r : ExamRecord) : option string :=
  Some (Classifier.categorizar_modalidade (Exame_Realizado r)).

Definition Ano_Mes (na : na_policy) (r : ExamRecord) : option string :=
  period_str na (Data_Realizacao r).

(** ** The pandas operations of the pipeline *)

Module Pandas.

(** Group keys: compared for equality and ordered ([groupby] sorts its
    groups by key, [sort=True] being the default). *)
Class Key (K : Type) := {
  key_eq_dec : forall a b : K, {a = b} + {a <> b};
  key_leb : K -> K -> bool
}.

#[export] Instance Key_string : Key string :=
  {| key_eq_dec := string_dec; key_leb := String.leb |}.

Definition prod_eq_dec {A B : Type} `{Key A} `{Key B} (x y : A * B)
  : {x = y} + {x <> y}.
Proof. decide equality; apply key_eq_dec. Defined.

(** Tuples of keys are ordered component by component. *)
#[export] Instance Key_prod {A B : Type} `{Key A} `{Key B} : Key (A * B) :=
  {| key_eq_dec := prod_eq_dec;
     key_leb := fun x y =>
       if key_eq_dec (fst x) (fst y) then key_leb (snd x) (snd y)
       else key_leb (fst x) (fst y) |}.

Fixpoint insert_key {K : Type} `{Key K} (k : K) (l : list K) : list K :=
  match l with
  | [] => [k]
  | x :: l' => if key_leb k x then k :: l else x :: insert_key k l'
  end.

Definition sort_keys {K : Type} `{Key K} (l : list K) : list K :=
  fold_right insert_key [] l.

Section GroupBy.

Context {R K : Type} `{Key K}.

(** The key of a row: [None] when one of the key columns is NaN. *)
Variable key : R -> option K.

Definition has_key (k : K) (r : R) : bool :=
  match key r with
  | Some k' => if key_eq_dec k' k then true else false
  | None => false
  end.

Definition keys_of (df : list R) : list K :=
  flat_map (fun r => match key r with Some k => [k] | None => [] end) df.

(** [df.groupby(key)]: one group per distinct key, in ascending key
    order; rows with a NaN key belong to no group ([dropna=True]); inside
    a group the rows keep the order of the frame. *)
Definition groupby (df : list R) : list (K * list R) :=
  map (fun k => (k, filter (has_key k) df))
      (sort_keys (nodup key_eq_dec (keys_of df))).

End GroupBy.

(** The aggregation ['count']: the cells of the column that are not NaN. *)
Definition count {R A : Type} (col : R -> option A) (g : list R) : Z :=
  Z.of_nat (List.length (filter (fun r => notna (col r)) g)).

(** The aggregation ['sum']: NaN cells are skipped, an empty sum is 0. *)
Definition sum {R : Type} (col : R -> option Q) (g : list R) : Q :=
  fold_left (fun acc r => (acc + Num.nan0 (col r))%Q) g 0%Q.

(** [Series.sum()] of an integer column. *)
Definition sum_int {R : Type} (col : R -> Z) (g : list R) : Z :=
  fold_left (fun acc r => acc + col r) g 0.

Fixpoint insert_desc {R : Type} (col : R -> Z) (x : R) (l : list R) : list R :=
  match l with
  | [] => [x]
  | y :: l' => if col y <=? col x then x :: l else y :: insert_desc col x l'
  end.

(** [df.sort_values(col, ascending=False)] with the default
    [kind='quicksort'], which is not stable: rows come out in descending
    order of [col], and pandas promises nothing about the order of rows of
    equal value.  The function below is one such sort (an insertion sort,
    which leaves ties in the order of the frame); the theorems on the two
    distributions state what every sort gives, a permutation of the frame
    in descending order, and nothing on where ties land. *)
Definition sort_values_desc {R : Type} (col : R -> Z) (df : list R) : list R :=
  fold_right (insert_desc col) [] df.

End Pandas.

(** ** The five views ([processar_dados], update.py 109-153) *)

Module Fine.
Record row := {
  Mes : option string;
  Convenio : string;
  Modalidade : string;
  Qtd : Z;
  Receita_Bruta : Q;
  Receita_Liquida : Q
}.
End Fine.

Module Resumo.
Record row := {
  Mes : option string;
  Qtd_Exames : Z;
  Receita_Bruta : Q;
  Receita_Liquida : Q;
  Percentual_Lucro : Num.pyfloat
}.
End Resumo.

Module DistConvenio.
Record row := {
  Convenio : string;
  Qtd : Z;
  Receita_Bruta : Q;
  Receita_Liquida : Q;
  Percentual : Num.pyfloat
}.
End DistConvenio.

Module DistModalidade.
Record row := {
  Modalidade : string;
  Qtd : Z;
  Receita_Bruta : Q;
  Receita_Liquida : Q;
  Percentual : Num.pyfloat
}.
End DistModalidade.

Module DistModalidadeMes.
Record row := {
  Mes : option string;
  Modalidade : string;
  Qtd : Z
}.
End DistModalidadeMes.

(** The dictionary [data_json] of lines 156-163, which the page embeds
    as [allData]. *)
Module Data.
Record data_json := {
  exames_mes_convenio_modalidade : list Fine.row;
  resumo_mensal : list Resumo.row;
  dist_convenio : list DistConvenio.row;
  dist_modalidade : list DistModalidade.row;
  dist_modalidade_mes : list DistModalidadeMes.row;
  ultima_atualizacao : string
}.
End Data.

Module Views.

Import Pandas.

(** Key columns of the three month-keyed group-bys. *)
Definition by_mes_convenio_modalidade (na : na_policy) (r : ExamRecord)
  : option (string * string * string) :=
  match Ano_Mes na r, Convenio r, Modalidade r with
  | Some m, Some c, Some md => Some (m, c, md)
  | _, _, _ => None
  end.

Definition by_mes_modalidade (na : na_policy) (r : ExamRecord)
  : option (string * string) :=
  match Ano_Mes na r, Modalidade r with
  | Some m, Some md => Some (m, md)
  | _, _ => None
  end.

(** Lines 110-116. *)
Definition exames_mes_convenio_modalidade (na : na_policy)
  (df : list ExamRecord) : list Fine.row :=
  filter (fun x => notna (Fine.Mes x))
    (map (fun kg : string * string * string * list ExamRecord =>
            let '(m, c, md, g) := kg in
            {| Fine.Mes := Some m;
               Fine.Convenio := c;
               Fine.Modalidade := md;
               Fine.Qtd := count Nome_Paciente g;
               Fine.Receita_Bruta := sum Valor_Exame g;
               Fine.Receita_Liquida := sum RDF g |})
         (groupby (by_mes_convenio_modalidade na) df)).

(** Lines 119-126. *)
Definition resumo_mensal (na : na_policy) (df : list ExamRecord)
  : list Resumo.row :=
  filter (fun x => notna (Resumo.Mes x))
    (map (fun kg : string * list ExamRecord =>
            let '(m, g) := kg in
            let bruta := sum Valor_Exame g in
            let liquida := sum RDF g in
            {| Resumo.Mes := Some m;
               Resumo.Qtd_Exames := count Nome_Paciente g;
               Resumo.Receita_Bruta := bruta;
               Resumo.Receita_Liquida := liquida;
               Resumo.Percentual_Lucro :=
                 Num.round2 (Num.fmul100 (Num.fdiv liquida bruta)) |})
         (groupby (Ano_Mes na) df)).

(** [Qtd / Qtd.sum() * 100] rounded to two places. *)
Definition percentual (qtd total : Z) : Num.pyfloat :=
  Num.round2 (Num.fmul100 (Num.fdiv (inject_Z qtd) (inject_Z total))).

(** Lines 129-136. *)
Definition dist_convenio (df : list ExamRecord) : list DistConvenio.row :=
  let groups := groupby Convenio df in
  let total := sum_int (fun kg => count Nome_Paciente (snd kg)) groups in
  sort_values_desc DistConvenio.Qtd
    (map (fun kg : string * list ExamRecord =>
            let '(c, g) := kg in
            {| DistConvenio.Convenio := c;
               DistConvenio.Qtd := count Nome_Paciente g;
               DistConvenio.Receita_Bruta := sum Valor_Exame g;
               DistConvenio.Receita_Liquida := sum RDF g;
               DistConvenio.Percentual :=
                 percentual (count Nome_Paciente g) total |})
         groups).

(** Lines 139-146. *)
Definition dist_modalidade (df : list ExamRecord) : list DistModalidade.row :=
  let groups := groupby Modalidade df in
  let total := sum_int (fun kg => count Nome_Paciente (snd kg)) groups in
  sort_values_desc DistModalidade.Qtd
    (map (fun kg : string * list ExamRecord =>
            let '(md, g) := kg in
            {| DistModalidade.Modalidade := md;
               DistModalidade.Qtd := count Nome_Paciente g;
               DistModalidade.Receita_Bruta := sum Valor_Exame g;
               DistModalidade.Receita_Liquida := sum RDF g;
               DistModalidade.Percentual :=
                 percentual (count Nome_Paciente g) total |})
         groups).

(** Lines 149-153. *)
Definition dist_modalidade_mes (na : na_policy) (df : list ExamRecord)
  : list DistModalidadeMes.row :=
  filter (fun x => notna (DistModalidadeMes.Mes x))
    (map (fun kg : string * string * list ExamRecord =>
            let '(m, md, g) := kg in
            {| DistModalidadeMes.Mes := Some m;
               DistModalidadeMes.Modalidade := md;
               DistModalidadeMes.Qtd := count Nome_Paciente g |})
         (groupby (by_mes_modalidade na) df)).

(** The aggregation half of [processar_dados]; [agora] is the formatted
    [datetime.now()]. *)
Definition agregar (na : na_policy) (agora : string) (df : list ExamRecord)
  : Data.data_json :=
  {| Data.exames_mes_convenio_modalidade :=
       exames_mes_convenio_modalidade na df;
     Data.resumo_mensal := resumo_mensal na df;
     Data.dist_convenio := dist_convenio df;
     Data.dist_modalidade := dist_modalidade df;
     Data.dist_modalidade_mes := dist_modalidade_mes na df;
     Data.ultima_atualizacao := agora |}.

(** The profit percentage in the words of the specification: net over
    gross times 100, rounded half-up to two places, 0 when gross is 0. *)
Definition percentual_lucro_spec (liquida bruta : Q) : Q :=
  if Qeq_bool bruta 0 then 0%Q
  else (inject_Z (Num.half_up (liquida / bruta * 100 * 100)) / 100)%Q.

(** The exam count of the monthly summary over all months. *)
Definition total_exames (rm : list Resumo.row) : Z :=
  sum_int Resumo.Qtd_Exames rm.

End Views.

(** ** Record normalizer ([processar_dados], update.py 62-79) *)

Module Normalizer.

(** A cell of the sheet as [read_excel] delivers it. *)
Inductive cell :=
| Empty
| Text (s : string)
| Number (q : Q)
| DateTime (t : Timestamp).

(** One row of the sheet under the nine column names of line 65.  The
    three text columns are kept as they are read; the date and the five
    numeric columns are raw cells until lines 72-77 convert them. *)
Record RawRow := {
  raw_Nome_Paciente : option string;
  raw_Data_Realizacao : cell;
  raw_Convenio : option string;
  raw_Exame_Realizado : option string;
  raw_Valor_Exame : cell;
  raw_Taxa_Cartao : cell;
  raw_Percentual_SASE : cell;
  raw_Percentual_Medico : cell;
  raw_RDF : cell
}.

(** [df['Nome_Paciente'] != 'Nome do Paciente'] on one row; a NaN cell
    differs from every string. *)
Definition not_header (r : RawRow) : bool :=
  match raw_Nome_Paciente r with
  | Some s => negb (s =? "Nome do Paciente")%string
  | None => true
  end.

(** The argument [errors] of [pd.to_datetime] and [pd.to_numeric]. *)
Inductive errors_mode :=
| Raise
| Coerce.

(** The exception of a parser that cannot read a cell. *)
Inductive Excecao :=
| ValueError (c : cell).

(** A computation that returns a value or raises. *)
Definition Resultado (A : Type) : Type := (Excecao + A)%type.

Definition ret {A : Type} (a : A) : Resultado A := inr a.

Definition bind {A B : Type} (m : Resultado A) (f : A -> Resultado B)
  : Resultado B :=
  match m with
  | inl e => inl e
  | inr a => f a
  end.

Notation "x <- m ;; k" := (bind m (fun x => k))
  (at level 61, m at next level, right associativity).

(** The rows of a frame converted one after the other; the first
    exception ends the conversion. *)
Fixpoint mapM {A B : Type} (f : A -> Resultado B) (l : list A)
  : Resultado (list B) :=
  match l with
  | [] => ret []
  | a :: l' => b <- f a ;; bs <- mapM f l' ;; ret (b :: bs)
  end.

Section Coerce.

(** What pandas' parsers read in a cell: the date, respectively the
    number, or [None] where the cell holds none (an empty cell, a text
    that is no date or no number). *)
Variable ler_data : cell -> option Timestamp.
Variable ler_numero : cell -> option Q.

(** [pd.to_datetime(_, errors=e)] and [pd.to_numeric(_, errors=e)] on
    one cell.  An empty cell is NaT / NaN under either mode; a cell that
    cannot be read raises under ['raise'], the default, and becomes
    NaT / NaN under ['coerce']. *)
Definition to_datetime (e : errors_mode) (c : cell)
  : Resultado (option Timestamp) :=
  match ler_data c, c, e with
  | Some t, _, _ => ret (Some t)
  | None, Empty, _ => ret None
  | None, _, Coerce => ret None
  | None, _, Raise => inl (ValueError c)
  end.

Definition to_numeric (e : errors_mode) (c : cell) : Resultado (option Q) :=
  match ler_numero c, c, e with
  | Some q, _, _ => ret (Some q)
  | None, Empty, _ => ret None
  | None, _, Coerce => ret None
  | None, _, Raise => inl (ValueError c)
  end.

(** Lines 72-77 on one row: each call passes [errors='coerce']. *)
Definition converter (r : RawRow) : Resultado ExamRecord :=
  data <- to_datetime Coerce (raw_Data_Realizacao r) ;;
  valor <- to_numeric Coerce (raw_Valor_Exame r) ;;
  taxa <- to_numeric Coerce (raw_Taxa_Cartao r) ;;
  sase <- to_numeric Coerce (raw_Percentual_SASE r) ;;
  medico <- to_numeric Coerce (raw_Percentual_Medico r) ;;
  rdf <- to_numeric Coerce (raw_RDF r) ;;
  ret {| Nome_Paciente := raw_Nome_Paciente r;
         Data_Realizacao := data;
         Convenio := raw_Convenio r;
         Exame_Realizado := raw_Exame_Realizado r;
         Valor_Exame := valor;
         Taxa_Cartao := taxa;
         Percentual_SASE := sase;
         Percentual_Medico := medico;
         RDF := rdf |}.

(** Lines 69-77: drop the repeated header rows, convert the rest. *)
Definition normalizar (tabela : list RawRow) : Resultado (list ExamRecord) :=
  mapM converter (filter not_header tabela).

(** [processar_dados] on the rows of the sheet. *)
Definition processar_dados (na : na_policy) (agora : string)
  (tabela : list RawRow) : Resultado Data.data_json :=
  df <- normalizar tabela ;;
  ret (Views.agregar na agora df).

End Coerce.

(** The parsers restricted to cells that need no text parsing: a number
    cell is a number, a date cell is a date, anything else is missing. *)
Definition numeric_cell (c : cell) : option Q :=
  match c with
  | Number q => Some q
  | _ => None
  end.

Definition datetime_cell (c : cell) : option Timestamp :=
  match c with
  | DateTime t => Some t
  | _ => None
  end.

End Normalizer.

(** ** The page's recompute functions (update.py 615-783) *)

Module Js.

Import Data.

(** What [aplicarFiltros] reads from the three controls: the value of
    each select (the empty string is the entry "all") and the values of
    the ticked boxes. *)
Record Filtros := {
  convenio : string;
  mes : string;
  modalidades : list string
}.

(** [limparFiltros] leaves the controls in this state. *)
Definition sem_filtros : Filtros :=
  {| convenio := ""; mes := ""; modalidades := [] |}.

(** Truthiness of a JS string. *)
Definition truthy (s : string) : bool := negb (s =? "")%string.

(** [x.Mes === mes]; a null month equals no string. *)
Definition mes_igual (m : option string) (s : string) : bool :=
  match m with
  | Some m' => (m' =? s)%string
  | None => false
  end.

(** [modalidades.includes(x)] *)
Definition includes (l : list string) (x : string) : bool :=
  existsb (fun y => (y =? x)%string) l.

(** A number after [JSON.parse(JSON.stringify(_))]: JSON has neither NaN
    nor infinities, and [stringify] writes [null] in their place. *)
Definition json_numero (x : Num.pyfloat) : Num.pyfloat :=
  match x with
  | Num.Fin q => Num.Fin q
  | _ => Num.Null
  end.

(** [JSON.parse(JSON.stringify(allData))]: a copy in which only the
    non-finite percentages change. *)
Definition clonar (allData : data_json) : data_json :=
  {| exames_mes_convenio_modalidade := exames_mes_convenio_modalidade allData;
     resumo_mensal :=
       map (fun r =>
              {| Resumo.Mes := Resumo.Mes r;
                 Resumo.Qtd_Exames := Resumo.Qtd_Exames r;
                 Resumo.Receita_Bruta := Resumo.Receita_Bruta r;
                 Resumo.Receita_Liquida := Resumo.Receita_Liquida r;
                 Resumo.Percentual_Lucro :=
                   json_numero (Resumo.Percentual_Lucro r) |})
           (resumo_mensal allData);
     dist_convenio :=
       map (fun r =>
              {| DistConvenio.Convenio := DistConvenio.Convenio r;
                 DistConvenio.Qtd := DistConvenio.Qtd r;
                 DistConvenio.Receita_Bruta := DistConvenio.Receita_Bruta r;
                 DistConvenio.Receita_Liquida := DistConvenio.Receita_Liquida r;
                 DistConvenio.Percentual :=
                   json_numero (DistConvenio.Percentual r) |})
           (dist_convenio allData);
     dist_modalidade :=
       map (fun r =>
              {| DistModalidade.Modalidade := DistModalidade.Modalidade r;
                 DistModalidade.Qtd := DistModalidade.Qtd r;
                 DistModalidade.Receita_Bruta := DistModalidade.Receita_Bruta r;
                 DistModalidade.Receita_Liquida :=
                   DistModalidade.Receita_Liquida r;
                 DistModalidade.Percentual :=
                   json_numero (DistModalidade.Percentual r) |})
           (dist_modalidade allData);
     dist_modalidade_mes := dist_modalidade_mes allData;
     ultima_atualizacao := ultima_atualizacao allData |}.

(** [aplicarFiltros] up to its call of [atualizarDashboard]: the new
    value of [filteredData]. *)
Definition aplicarFiltros (allData : data_json) (f : Filtros) : data_json :=
  let copia := clonar allData in
  let d0 := exames_mes_convenio_modalidade copia in
  let d1 :=
    if truthy (convenio f)
    then filter (fun x => (Fine.Convenio x =? convenio f)%string) d0
    else d0 in
  let d2 :=
    if truthy (mes f)
    then filter (fun x => mes_igual (Fine.Mes x) (mes f)) d1
    else d1 in
  let d3 :=
    if (0 <? List.length (modalidades f))%nat
    then filter (fun x => includes (modalidades f) (Fine.Modalidade x)) d2
    else d2 in
  {| exames_mes_convenio_modalidade := d3;
     resumo_mensal := resumo_mensal copia;
     dist_convenio := dist_convenio copia;
     dist_modalidade := dist_modalidade copia;
     dist_modalidade_mes := dist_modalidade_mes copia;
     ultima_atualizacao := ultima_atualizacao copia |}.

(** The value of [lucro]: a string out of [toFixed], or the number 0. *)
Inductive lucro_t :=
| LucroTexto (s : string)
| LucroZero.

(** The four values [atualizarKPIs] computes before formatting them. *)
Record KPIs := {
  qtd : Z;
  bruta : Q;
  liquida : Q;
  lucro : lucro_t
}.

(** [bruta > 0 ? ((liquida / bruta) * 100).toFixed(2) : 0] *)
Definition calcular_lucro (liquida bruta : Q) : lucro_t :=
  if Qlt_le_dec 0 bruta
  then LucroTexto (Num.toFixed2 (liquida / bruta * 100)%Q)
  else LucroZero.

Definition atualizarKPIs (filteredData : data_json) : KPIs :=
  let dados := exames_mes_convenio_modalidade filteredData in
  let qtd := fold_left (fun sum x => sum + Fine.Qtd x) dados 0 in
  let bruta := fold_left (fun sum x => (sum + Fine.Receita_Bruta x)%Q) dados 0%Q in
  let liquida := fold_left (fun sum x => (sum + Fine.Receita_Liquida x)%Q) dados 0%Q in
  {| qtd := qtd;
     bruta := bruta;
     liquida := liquida;
     lucro := calcular_lucro liquida bruta |}.

(** The text of [kpiLucro]: [lucro + '%']. *)
Definition kpiLucro (k : KPIs) : string :=
  match lucro k with
  | LucroTexto s => s ++ "%"
  | LucroZero => "0%"
  end.

(** A property key: [null] is turned into the string [null]. *)
Definition chave (m : option string) : string :=
  match m with
  | Some s => s
  | None => "null"
  end.

(** [o[k] = (o[k] || 0) + q] on an object whose keys are kept in the
    order they were first written (month keys are never array indices,
    which JS would list first). *)
Fixpoint somar_em (o : list (string * Z)) (k : string) (q : Z)
  : list (string * Z) :=
  match o with
  | [] => [(k, 0 + q)]
  | (k', v) :: o' =>
      if (k' =? k)%string then (k', v + q) :: o'
      else (k', v) :: somar_em o' k q
  end.

(** [o[k]], read as 0 where the object has no such key. *)
Fixpoint valor (o : list (string * Z)) (k : string) : Z :=
  match o with
  | [] => 0
  | (k', v) :: o' => if (k' =? k)%string then v else valor o' k
  end.

(** The labels and the data of one chart. *)
Record Chart := {
  labels : list string;
  data : list Z
}.

Record Graficos := {
  chartMes : Chart;
  chartConvenio : Chart;
  chartModalidade : Chart;
  chartModalidadeQtd : Chart
}.

Definition examesPosMes (filteredData : data_json) : list (string * Z) :=
  fold_left (fun o x => somar_em o (chave (Fine.Mes x)) (Fine.Qtd x))
            (exames_mes_convenio_modalidade filteredData) [].

Definition convenioDados (allData : data_json) : list DistConvenio.row :=
  filter (fun x => negb (DistConvenio.Convenio x =? "CORTESIA")%string)
         (dist_convenio allData).

Definition modalidadeDados (allData : data_json) : list DistModalidade.row :=
  filter (fun x => negb (DistModalidade.Modalidade x =? "Outros")%string)
         (dist_modalidade allData).

(** [atualizarGraficos]: it reads the two globals [allData] and
    [filteredData]. *)
Definition atualizarGraficos (allData filteredData : data_json) : Graficos :=
  let o := examesPosMes filteredData in
  {| chartMes := {| labels := map fst o; data := map snd o |};
     chartConvenio :=
       {| labels := map DistConvenio.Convenio (convenioDados allData);
          data := map DistConvenio.Qtd (convenioDados allData) |};
     chartModalidade :=
       {| labels := map DistModalidade.Modalidade (modalidadeDados allData);
          data := map DistModalidade.Qtd (modalidadeDados allData) |};
     chartModalidadeQtd :=
       {| labels := map DistModalidade.Modalidade (modalidadeDados allData);
          data := map DistModalidade.Qtd (modalidadeDados allData) |} |}.

(** One card of [atualizarCards]: title and the three figures. *)
Record Card := {
  titulo : string;
  card_Qtd : Z;
  card_Receita_Bruta : Q;
  card_Receita_Liquida : Q
}.

Definition atualizarCards (allData : data_json) : list Card :=
  map (fun m => {| titulo := DistModalidade.Modalidade m;
                   card_Qtd := DistModalidade.Qtd m;
                   card_Receita_Bruta := DistModalidade.Receita_Bruta m;
                   card_Receita_Liquida := DistModalidade.Receita_Liquida m |})
      (filter (fun x => negb (DistModalidade.Modalidade x =? "Outros")%string)
              (dist_modalidade allData)).

(** What one pass of [atualizarDashboard] shows. *)
Record Dashboard := {
  kpis : KPIs;
  graficos : Graficos;
  tabela : list Fine.row;
  cards : list Card
}.

Definition atualizarDashboard (allData filteredData : data_json) : Dashboard :=
  {| kpis := atualizarKPIs filteredData;
     graficos := atualizarGraficos allData filteredData;
     tabela := exames_mes_convenio_modalidade filteredData;
     cards := atualizarCards allData |}.

End Js.

(** ** Sample records *)

Module Amostra.

(** A record with the four numeric columns that no view reads left empty. *)
Definition registro (paciente : option string) (data : option Timestamp)
  (convenio exame : option string) (valor rdf : option Q) : ExamRecord :=
  {| Nome_Paciente := paciente;
     Data_Realizacao := data;
     Convenio := convenio;
     Exame_Realizado := exame;
     Valor_Exame := valor;
     Taxa_Cartao := None;
     Percentual_SASE := None;
     Percentual_Medico := None;
     RDF := rdf |}.

Definition jan15 : option Timestamp :=
  Some {| year := 2024; month := 1; day := 15 |}.

Definition jan20 : option Timestamp :=
  Some {| year := 2024; month := 1; day := 20 |}.

Definition fev03 : option Timestamp :=
  Some {| year := 2024; month := 2; day := 3 |}.

(** The two-record scenario of the specification. *)
Definition cenario : list ExamRecord :=
  [ registro (Some "Ana") jan15 (Some "InsCo") (Some "ULTRASSOM ABDOME")
             (Some 200%Q) (Some 180%Q);
    registro (Some "Bia") jan20 (Some "InsCo") (Some "RAIO X TORAX")
             (Some 100%Q) (Some 90%Q) ].

End Amostra.

(** ** The controls of the page (update.py 565-613 and 640-646) *)

Module Pagina.

Import Data Js.

(** [[...new Set(l)]]: the values of [l], each once, in the order in
    which they first appear. *)
Definition unicos {A : Type} (dec : forall x y : A, {x = y} + {x <> y})
  (l : list A) : list A :=
  fold_left (fun vistos x =>
               if in_dec dec x vistos then vistos else (vistos ++ [x])%list)
            l [].

Definition option_string_dec (x y : option string) : {x = y} + {x <> y}.
Proof. decide equality; apply string_dec. Defined.

(** The entries [preencherFiltros] adds to the payer select, to the list
    of modality check boxes and to the month select (each select starts
    with the entry "Todos", whose value is the empty string). *)
Record Opcoes := {
  opcoes_convenio : list string;
  opcoes_modalidade : list string;
  opcoes_mes : list string
}.

Definition preencherFiltros (allData : data_json) : Opcoes :=
  {| opcoes_convenio :=
       unicos string_dec
         (map Fine.Convenio (exames_mes_convenio_modalidade allData));
     opcoes_modalidade :=
       unicos string_dec
         (map DistModalidade.Modalidade (dist_modalidade allData));
     opcoes_mes :=
       flat_map (fun p => match p with
                          | Some s => if truthy s then [s] else []
                          | None => []
                          end)
                (unicos option_string_dec
                   (map Resumo.Mes (resumo_mensal allData))) |}.

(** The test of [aplicarFiltros] on the key of a fine-grained group. *)
Definition chave_passa (f : Filtros) (k : string * string * string) : bool :=
  let '(m, c, md) := k in
  (negb (truthy (convenio f)) || (c =? convenio f)%string) &&
  (negb (truthy (mes f)) || (m =? mes f)%string) &&
  (negb (0 <? List.length (modalidades f))%nat || includes (modalidades f) md).

(** The records a filter selects: those that have a month key and a
    payer, and whose payer, month and modality pass the controls. *)
Definition registro_passa (na : na_policy) (f : Filtros) (r : ExamRecord)
  : bool :=
  match Views.by_mes_convenio_modalidade na r with
  | Some k => chave_passa f k
  | None => false
  end.

(** The records of one month. *)
Definition no_mes (na : na_policy) (m : string) (r : ExamRecord) : bool :=
  match Ano_Mes na r with
  | Some k => (k =? m)%string
  | None => false
  end.

End Pagina.

(** ** The order of group keys *)

Module Ordem.

Import Pandas.

(** What sorting the groups needs of the order on keys. *)
Class KeyLaws (K : Type) `{Key K} : Prop := {
  key_leb_total : forall a b : K, key_leb a b = true \/ key_leb b a = true;
  key_leb_trans : forall a b c : K,
    key_leb a b = true -> key_leb b c = true -> key_leb a c = true;
  key_leb_antisym : forall a b : K,
    key_leb a b = true -> key_leb b a = true -> a = b
}.

(** Strictly before. *)
Definition key_lt {K : Type} `{Key K} (a b : K) : Prop :=
  key_leb a b = true /\ a <> b.

End Ordem.

(** ** What a percentage column of shares must look like *)

Module Partes.

Import Pandas.

Local Open Scope Q_scope.

(** A frame whose percentage column holds the shares of its count column:
    every cell is NaN when the counts add up to 0 (the division 0 / 0 of
    line 135 and line 145); otherwise every cell is a finite number
    between 0 and 100 and the cells add up to 100, up to the rounding of
    each cell to two places. *)
Definition percentuais_coerentes {R : Type} (qtd : R -> Z)
  (pct : R -> Num.pyfloat) (rows : list R) : Prop :=
  (sum_int qtd rows = 0%Z -> Forall (fun r => pct r = Num.NaN) rows) /\
  (sum_int qtd rows <> 0%Z ->
   exists ps : list Q,
     map pct rows = map Num.Fin ps /\
     Forall (fun p => 0 <= p /\ p <= 100) ps /\
     100 - inject_Z (Z.of_nat (List.length rows)) * (1 # 200) <=
     fold_left Qplus ps 0 /\
     fold_left Qplus ps 0 <=
     100 + inject_Z (Z.of_nat (List.length rows)) * (1 # 200)).

End Partes.

(** ** Binary64: the sums and quotients as the machine computes them *)

Module F64.

Import Pandas PrimFloat.

Local Open Scope float_scope.

(** An integer as a double (exact below [2^53]). *)
Fixpoint of_pos (p : positive) : float :=
  match p with
  | xH => 1
  | xO p' => 2 * of_pos p'
  | xI p' => 2 * of_pos p' + 1
  end.

Definition of_Z (z : Z) : float :=
  match z with
  | Z0 => 0
  | Zpos p => of_pos p
  | Zneg p => - of_pos p
  end.

(** The double a decimal amount of the sheet is stored as, the nearest
    one: the quotient of two doubles is correctly rounded. *)
Definition of_Q (q : Q) : float := of_Z (Qnum q) / of_pos (Qden q).

(** The exact value of a finite double. *)
Definition to_Q (x : float) : option Q :=
  match FloatOps.Prim2SF x with
  | SpecFloat.S754_zero _ => Some 0%Q
  | SpecFloat.S754_finite s m e =>
      let v := match e with
               | Z0 => inject_Z (Zpos m)
               | Zpos k => inject_Z (Zpos m * 2 ^ Zpos k)
               | Zneg k => (Zpos m # 2 ^ k)%Q
               end in
      Some (if s then (- v)%Q else v)
  | _ => None
  end.

(** How the aggregation ['sum'] of a group adds its values: one after the
    other, or with the compensation pandas' [group_sum] carries since its
    release 1.2.  The script does not pin its pandas. *)
Inductive somador :=
| Simples
| Compensada.

Definition somadores : list somador := [Simples; Compensada].

(** One step of the compensated sum:
    [y = val - compensation; t = sumx + y;
     compensation = t - sumx - y] (reset when it is NaN); [sumx = t]. *)
Definition passo (st : float * float) (val : float) : float * float :=
  let '(sumx, compensation) := st in
  let y := val - compensation in
  let t := sumx + y in
  let c := t - sumx - y in
  (t, if c =? c then c else 0).

Definition acumular (s : somador) (xs : list float) : float :=
  match s with
  | Simples => fold_left add xs 0
  | Compensada => fst (fold_left passo xs (0, 0))
  end.

(** The cells of a column that are not NaN, as doubles. *)
Definition valores {R : Type} (col : R -> option Q) (g : list R)
  : list float :=
  flat_map (fun r => match col r with
                     | Some q => [of_Q q]
                     | None => []
                     end) g.

(** The aggregation ['sum'] of a group. *)
Definition sum {R : Type} (s : somador) (col : R -> option Q) (g : list R)
  : float :=
  acumular s (valores col g).

(** A sum column of the fine-grained view and of the monthly summary, as
    the doubles the two frames hold: one sum per group, the groups being
    those of the views. *)
Definition exames_col (s : somador) (na : na_policy)
  (col : ExamRecord -> option Q) (df : list ExamRecord) : list float :=
  map (fun kg => sum s col (snd kg))
      (Pandas.groupby (Views.by_mes_convenio_modalidade na) df).

Definition resumo_col (s : somador) (na : na_policy)
  (col : ExamRecord -> option Q) (df : list ExamRecord) : list float :=
  map (fun kg => sum s col (snd kg)) (Pandas.groupby (Ano_Mes na) df).

(** [dados.reduce((sum, x) => sum + x.Receita_Bruta, 0)] (lines 657-659)
    on the values of the column. *)
Definition reduce (xs : list float) : float := fold_left add xs 0.

(** [np.rint]: the nearest integer, a tie going to the even one.  Below
    [2^52] adding and taking away [2^52] rounds to an integer in the
    rounding mode of the machine, which is to nearest, ties to even; from
    [2^52] on every double is an integer. *)
Definition two52 : float := 4503599627370496.

Definition rint (x : float) : float :=
  if abs x <? two52 then
    if x <? 0 then (x - two52) + two52 else (x + two52) - two52
  else x.

(** [Series.round(2)]: numpy scales by 100, applies [rint] and divides
    by 100. *)
Definition round2 (x : float) : float := rint (x * 100) / 100.

(** Line 125 on one row:
    [(Receita_Liquida / Receita_Bruta * 100).round(2)]. *)
Definition percentual_lucro (liquida bruta : float) : float :=
  round2 (liquida / bruta * 100).

(** The column [Percentual_Lucro] of the monthly summary. *)
Definition resumo_percentual_lucro (s : somador) (na : na_policy)
  (df : list ExamRecord) : list float :=
  map (fun kg => percentual_lucro (sum s RDF (snd kg))
                                  (sum s Valor_Exame (snd kg)))
      (Pandas.groupby (Ano_Mes na) df).

(** [x.toFixed(2)] of a double below [10^21]: the digits of
    [Num.toFixed2] at the exact value of [x]. *)
Definition toFixed2 (x : float) : string :=
  match to_Q x with
  | Some q => Num.toFixed2 q
  | None => if is_nan x then "NaN"%string
            else if x <? 0 then "-Infinity"%string else "Infinity"%string
  end.

(** Line 660: [bruta > 0 ? ((liquida / bruta) * 100).toFixed(2) : 0]. *)
Definition calcular_lucro (liquida bruta : float) : Js.lucro_t :=
  if 0 <? bruta then Js.LucroTexto (toFixed2 (liquida / bruta * 100))
  else Js.LucroZero.

(** The gross total, the net total and the profit percentage
    [atualizarKPIs] shows on a page whose controls are empty. *)
Definition kpi_bruta (s : somador) (na : na_policy) (df : list ExamRecord)
  : float :=
  reduce (exames_col s na Valor_Exame df).

Definition kpi_liquida (s : somador) (na : na_policy) (df : list ExamRecord)
  : float :=
  reduce (exames_col s na RDF df).

Definition kpi_lucro (s : somador) (na : na_policy) (df : list ExamRecord)
  : Js.lucro_t :=
  calcular_lucro (kpi_liquida s na df) (kpi_bruta s na df).

End F64.

(** * Properties *)

(** ** Strings and the classifier *)

Module StrFacts.

Import Str.

Lemma prefix_append (p b : string) : String.prefix p (p ++ b) = true.
Proof.
  induction p as [|c p IH]; simpl.
  - now destruct b.
  - destruct (ascii_dec c c) as [_|n]; [exact IH | now elim n].
Qed.

Lemma prefix_split (p s : string) :
  String.prefix p s = true -> exists b, s = p ++ b.
Proof.
  revert s; induction p as [|c p IH]; intros s Hp.
  - now exists s.
  - destruct s as [|d s]; simpl in Hp; [discriminate|].
    destruct (ascii_dec c d) as [->|]; [|discriminate].
    destruct (IH s Hp) as [b ->]. now exists b.
Qed.

Lemma occurs_cons (p : string) (c : ascii) (s : string) :
  occurs p (String c s) = String.prefix p (String c s) || occurs p s.
Proof. reflexivity. Qed.

(** [occurs p s] is the substring test: [s] is [a ++ p ++ b]. *)
Lemma occurs_spec (p s : string) :
  occurs p s = true <-> exists a b, s = a ++ p ++ b.
Proof.
  split.
  - induction s as [|c s IH]; intros H.
    + destruct p; [|discriminate]. now exists "", "".
    + rewrite occurs_cons in H. apply orb_true_iff in H as [H|H].
      * apply prefix_split in H as [b Hb]. exists "", b. exact Hb.
      * destruct (IH H) as (a & b & ->). now exists (String c a), b.
  - intros (a & b & ->). induction a as [|c a IH].
    + change ("" ++ p ++ b) with (p ++ b).
      destruct (p ++ b) eqn:E.
      * destruct p; [reflexivity | discriminate].
      * rewrite occurs_cons, <- E, prefix_append. reflexivity.
    + change (String c a ++ p ++ b) with (String c (a ++ p ++ b)).
      rewrite occurs_cons, IH. apply orb_true_r.
Qed.

Lemma upper_space (c : ascii) : is_space c = true -> upper_ascii c = c.
Proof.
  destruct c as [[] [] [] [] [] [] [] []]; vm_compute; congruence.
Qed.

Lemma blank_upper (s : string) : blank s = true -> upper s = s.
Proof.
  induction s as [|c s IH]; simpl; [reflexivity|].
  intros H. apply andb_true_iff in H as [Hc Hs].
  now rewrite (upper_space c Hc), (IH Hs).
Qed.

(** A pattern found in a blank string starts with a blank. *)
Lemma occurs_blank (c : ascii) (p s : string) :
  blank s = true -> occurs (String c p) s = true -> is_space c = true.
Proof.
  induction s as [|d s IH]; intros Hb Ho.
  - discriminate.
  - simpl in Hb. apply andb_true_iff in Hb as [Hd Hs].
    rewrite occurs_cons in Ho. apply orb_true_iff in Ho as [Ho|Ho].
    + simpl in Ho. destruct (ascii_dec c d) as [->|]; [exact Hd | discriminate].
    + exact (IH Hs Ho).
Qed.

End StrFacts.

Module ClassifierFacts.

Import Str StrFacts Classifier.

(** The dict of the code and the rule table of the specification list the
    same substrings in the same order, with matching labels. *)
Lemma modalidades_rules :
  modalidades = map (fun r => (fst r, label (snd r))) rules.
Proof. reflexivity. Qed.

(** The loop with its early return is a first-match search. *)
Lemma scan_find (rs : list (string * Modality)) (u : string) :
  scan (map (fun r => (fst r, label (snd r))) rs) u =
  option_map (fun r => label (snd r)) (find (fun r => occurs (fst r) u) rs).
Proof.
  induction rs as [|[k m] rs IH]; simpl; [reflexivity|].
  destruct (occurs k u); [reflexivity | exact IH].
Qed.

(** No rule fires on a blank description. *)
Lemma find_blank (d : string) :
  blank d = true ->
  find (fun r => occurs (fst r) (upper d)) rules = None.
Proof.
  intros Hb. rewrite (blank_upper d Hb).
  assert (H : forall c p, is_space c = false -> occurs (String c p) d = false).
  { intros c p Hc. destruct (occurs (String c p) d) eqn:E; [|reflexivity].
    rewrite (occurs_blank c p d Hb E) in Hc. discriminate. }
  unfold rules, find, fst.
  repeat (rewrite H by reflexivity). reflexivity.
Qed.

(** The code computes the classifier of the specification. *)
Lemma categorizar_modalidade_classify (d : option string) :
  categorizar_modalidade d = label (classify d).
Proof.
  destruct d as [d|]; [|reflexivity].
  unfold categorizar_modalidade, classify.
  rewrite modalidades_rules, scan_find.
  destruct (blank d) eqn:Hb.
  - now rewrite (find_blank d Hb).
  - now destruct (find _ rules).
Qed.

(** What a first-match search returns, without [find]: the rule found
    splits the table, and nothing before it fires. *)
Lemma find_first {A : Type} (f : A -> bool) (l : list A) :
  match find f l with
  | Some r => exists pre post,
      l = (pre ++ r :: post)%list /\ f r = true /\
      (forall r', In r' pre -> f r' = false)
  | None => forall r, In r l -> f r = false
  end.
Proof.
  induction l as [|a l IH]; simpl.
  - intros r [].
  - destruct (f a) eqn:Ha.
    + exists [], l. repeat split; [exact Ha | intros r' []].
    + destruct (find f l) as [r|].
      * destruct IH as (pre & post & -> & Hr & Hpre).
        exists (a :: pre), post. repeat split; [exact Hr|].
        intros r' [<-|Hin]; [exact Ha | exact (Hpre r' Hin)].
      * intros r [<-|Hin]; [exact Ha | exact (IH r Hin)].
Qed.

(** C5, as amended: [categorizar_modalidade] answers [Outros] for a
    missing or blank description; otherwise it answers the label of the
    first rule of the ordered table whose substring occurs in the
    uppercased description, and [Outros] when no rule fires.  A
    description in which both [RX] and [DOPPLER] occur is never classified
    as Doppler, and it is classified as [Raio X] whenever none of the four
    substrings listed before the X-ray rules occurs in it. *)
Theorem categorizar_modalidade_first_match :
  categorizar_modalidade None = "Outros" /\
  (forall d, blank d = true -> categorizar_modalidade (Some d) = "Outros") /\
  (forall d, categorizar_modalidade d = label (classify d)) /\
  (forall d,
      (exists pre r post,
          rules = (pre ++ r :: post)%list /\
          occurs (fst r) (upper d) = true /\
          (forall r', In r' pre -> occurs (fst r') (upper d) = false) /\
          categorizar_modalidade (Some d) = label (snd r))
      \/
      ((forall r, In r rules -> occurs (fst r) (upper d) = false) /\
       categorizar_modalidade (Some d) = "Outros")) /\
  (forall d,
      occurs "RX" (upper d) = true ->
      occurs "DOPPLER" (upper d) = true ->
      categorizar_modalidade (Some d) <> "Doppler" /\
      (occurs "MAMOGRAFIA" (upper d) = false ->
       occurs "DENSITOMETRIA" (upper d) = false ->
       occurs "ULTRASSONOGRAFIA" (upper d) = false ->
       occurs "ULTRASSOM" (upper d) = false ->
       categorizar_modalidade (Some d) = "Raio X")).
Proof.
  split; [reflexivity|]. split.
  { intros d Hb. rewrite categorizar_modalidade_classify.
    unfold classify. now rewrite Hb. }
  split; [exact categorizar_modalidade_classify|]. split.
  - intros d. unfold categorizar_modalidade.
    rewrite modalidades_rules, scan_find.
    pose proof (find_first (fun r => occurs (fst r) (upper d)) rules) as H.
    destruct (find _ rules) as [r|].
    + left. destruct H as (pre & post & E & Hr & Hpre).
      exists pre, r, post. repeat split; assumption.
    + right. split; [exact H | reflexivity].
  - intros d Hrx _. unfold categorizar_modalidade, modalidades, scan.
    split.
    + destruct (occurs "MAMOGRAFIA" (upper d)); [discriminate|].
      destruct (occurs "DENSITOMETRIA" (upper d)); [discriminate|].
      destruct (occurs "ULTRASSONOGRAFIA" (upper d)); [discriminate|].
      destruct (occurs "ULTRASSOM" (upper d)); [discriminate|].
      destruct (occurs "RAIO X" (upper d)); [discriminate|].
      destruct (occurs "RAIO-X" (upper d)); [discriminate|].
      rewrite Hrx. discriminate.
    + intros -> -> -> ->.
      destruct (occurs "RAIO X" (upper d)); [reflexivity|].
      destruct (occurs "RAIO-X" (upper d)); [reflexivity|].
      now rewrite Hrx.
Qed.

(** The claim as first written fails: this description holds both [RX]
    and [DOPPLER], yet the mammography rule comes first and wins. *)
Lemma rx_doppler_not_always_raio_x :
  let d := "MAMOGRAFIA RX DOPPLER" in
  occurs "RX" (upper d) = true /\
  occurs "DOPPLER" (upper d) = true /\
  categorizar_modalidade (Some d) = "Mamografia" /\
  categorizar_modalidade (Some d) <> "Raio X".
Proof. vm_compute. repeat split; discriminate. Qed.

End ClassifierFacts.

(** ** Record normalizer *)

Module NormalizerFacts.

Import Normalizer.

Lemma not_header_false (r : RawRow) :
  not_header r = false <-> raw_Nome_Paciente r = Some "Nome do Paciente".
Proof.
  unfold not_header. destruct (raw_Nome_Paciente r) as [s|].
  - rewrite negb_false_iff, String.eqb_eq. split; congruence.
  - split; discriminate.
Qed.

Lemma not_header_true (r : RawRow) :
  not_header r = true <-> raw_Nome_Paciente r <> Some "Nome do Paciente".
Proof.
  rewrite <- not_header_false. destruct (not_header r); split; congruence.
Qed.

(** A conversion that never raises converts every row. *)
Lemma mapM_ret {A B : Type} (f : A -> Resultado B) (g : A -> B)
  (l : list A) :
  (forall a, f a = ret (g a)) -> mapM f l = ret (map g l).
Proof.
  intros Hf. induction l as [|a l IH]; cbn [mapM map]; [reflexivity|].
  now rewrite Hf, IH.
Qed.

Lemma Forall2_map_r {A B : Type} (P : A -> B -> Prop) (g : A -> B)
  (l : list A) :
  (forall a, P a (g a)) -> Forall2 P l (map g l).
Proof. intros HP. induction l; cbn [map]; constructor; auto. Qed.

Section Lenient.

Variable ler_data : cell -> option Timestamp.
Variable ler_numero : cell -> option Q.

Lemma to_datetime_coerce (c : cell) :
  to_datetime ler_data Coerce c = ret (ler_data c).
Proof. unfold to_datetime. now destruct (ler_data c), c. Qed.

Lemma to_numeric_coerce (c : cell) :
  to_numeric ler_numero Coerce c = ret (ler_numero c).
Proof. unfold to_numeric. now destruct (ler_numero c), c. Qed.

Lemma converter_ret (r : RawRow) :
  converter ler_data ler_numero r =
  ret {| Nome_Paciente := raw_Nome_Paciente r;
         Data_Realizacao := ler_data (raw_Data_Realizacao r);
         Convenio := raw_Convenio r;
         Exame_Realizado := raw_Exame_Realizado r;
         Valor_Exame := ler_numero (raw_Valor_Exame r);
         Taxa_Cartao := ler_numero (raw_Taxa_Cartao r);
         Percentual_SASE := ler_numero (raw_Percentual_SASE r);
         Percentual_Medico := ler_numero (raw_Percentual_Medico r);
         RDF := ler_numero (raw_RDF r) |}.
Proof.
  unfold converter. rewrite to_datetime_coerce, !to_numeric_coerce.
  reflexivity.
Qed.

(** C9: normalization raises for no table.  It returns one record for
    each row whose patient cell is not the header label
    ["Nome do Paciente"], in the order of the rows, and none for a header
    row; in the record of a row the three text columns are the cells as
    read and each of the six date / numeric columns is what the parser
    reads in the cell, hence null where the parser reads nothing, the row
    being kept; and a table made of header rows only gives the empty
    sequence, from which [processar_dados] builds its (empty) views. *)
Theorem normalizar_lenient :
  (forall t,
      exists rs,
        normalizar ler_data ler_numero t = inr rs /\
        Forall2
          (fun r e =>
             Nome_Paciente e = raw_Nome_Paciente r /\
             Data_Realizacao e = ler_data (raw_Data_Realizacao r) /\
             Convenio e = raw_Convenio r /\
             Exame_Realizado e = raw_Exame_Realizado r /\
             Valor_Exame e = ler_numero (raw_Valor_Exame r) /\
             Taxa_Cartao e = ler_numero (raw_Taxa_Cartao r) /\
             Percentual_SASE e = ler_numero (raw_Percentual_SASE r) /\
             Percentual_Medico e = ler_numero (raw_Percentual_Medico r) /\
             RDF e = ler_numero (raw_RDF r))
          (filter not_header t) rs) /\
  (forall t r,
      In r (filter not_header t) <->
      In r t /\ raw_Nome_Paciente r <> Some "Nome do Paciente") /\
  (forall t1 r t2,
      raw_Nome_Paciente r = Some "Nome do Paciente" ->
      normalizar ler_data ler_numero (t1 ++ r :: t2) =
      normalizar ler_data ler_numero (t1 ++ t2)) /\
  (forall t1 r t2,
      raw_Nome_Paciente r <> Some "Nome do Paciente" ->
      filter not_header (t1 ++ r :: t2) =
      (filter not_header t1 ++ r :: filter not_header t2)%list) /\
  (forall na agora t,
      exists d, processar_dados ler_data ler_numero na agora t = inr d) /\
  (forall na agora t,
      (forall r, In r t -> raw_Nome_Paciente r = Some "Nome do Paciente") ->
      normalizar ler_data ler_numero t = inr [] /\
      processar_dados ler_data ler_numero na agora t =
      inr {| Data.exames_mes_convenio_modalidade := [];
             Data.resumo_mensal := [];
             Data.dist_convenio := [];
             Data.dist_modalidade := [];
             Data.dist_modalidade_mes := [];
             Data.ultima_atualizacao := agora |}).
Proof.
  assert (Hn : forall t,
             normalizar ler_data ler_numero t =
             inr (map (fun r =>
                         {| Nome_Paciente := raw_Nome_Paciente r;
                            Data_Realizacao := ler_data (raw_Data_Realizacao r);
                            Convenio := raw_Convenio r;
                            Exame_Realizado := raw_Exame_Realizado r;
                            Valor_Exame := ler_numero (raw_Valor_Exame r);
                            Taxa_Cartao := ler_numero (raw_Taxa_Cartao r);
                            Percentual_SASE :=
                              ler_numero (raw_Percentual_SASE r);
                            Percentual_Medico :=
                              ler_numero (raw_Percentual_Medico r);
                            RDF := ler_numero (raw_RDF r) |})
                      (filter not_header t))).
  { intros t. unfold normalizar. apply mapM_ret, converter_ret. }
  split; [|split; [|split; [|split; [|split]]]].
  - intros t. eexists. split; [apply Hn|].
    apply Forall2_map_r. intros r. cbn. repeat split.
  - intros t r. rewrite filter_In, not_header_true. reflexivity.
  - intros t1 r t2 Hr. rewrite !Hn, !filter_app. cbn [filter].
    apply not_header_false in Hr. now rewrite Hr.
  - intros t1 r t2 Hr. rewrite filter_app. cbn [filter].
    apply not_header_true in Hr. now rewrite Hr.
  - intros na agora t. unfold processar_dados. rewrite Hn.
    eexists. reflexivity.
  - intros na agora t Hall.
    assert (E : filter not_header t = []).
    { induction t as [|r t IH]; [reflexivity|]. cbn [filter].
      assert (Hr : not_header r = false)
        by (apply not_header_false, Hall; now left).
      rewrite Hr. apply IH. intros r' Hin. apply Hall. now right. }
    unfold processar_dados. rewrite Hn, E. split; reflexivity.
Qed.

End Lenient.

End NormalizerFacts.

(** ** Sums over lists *)

Module SumFacts.

Lemma filter_filter {A : Type} (p q : A -> bool) (l : list A) :
  filter p (filter q l) = filter (fun x => q x && p x) l.
Proof.
  induction l as [|a l IH]; simpl; [reflexivity|].
  destruct (q a); simpl; [destruct (p a)|]; now rewrite IH.
Qed.

Section IntegerSums.

Context {A : Type} (f : A -> Z).

Lemma foldZ_shift (l : list A) (a : Z) :
  fold_left (fun acc x => acc + f x) l a =
  a + fold_left (fun acc x => acc + f x) l 0.
Proof.
  revert a. induction l as [|x l IH]; intros a; cbn [fold_left]; [lia|].
  rewrite (IH (a + f x)), (IH (0 + f x)). lia.
Qed.

Lemma foldZ_cons (x : A) (l : list A) :
  fold_left (fun acc x => acc + f x) (x :: l) 0 =
  f x + fold_left (fun acc x => acc + f x) l 0.
Proof. cbn [fold_left]. rewrite foldZ_shift. lia. Qed.

Lemma foldZ_app (l1 l2 : list A) :
  fold_left (fun acc x => acc + f x) (l1 ++ l2) 0 =
  fold_left (fun acc x => acc + f x) l1 0 +
  fold_left (fun acc x => acc + f x) l2 0.
Proof. rewrite fold_left_app. apply foldZ_shift. Qed.

Lemma foldZ_perm (l l' : list A) :
  Permutation l l' ->
  fold_left (fun acc x => acc + f x) l 0 =
  fold_left (fun acc x => acc + f x) l' 0.
Proof.
  induction 1 as [|x l l' _ IH|x y l|l l' l'' _ IH1 _ IH2].
  - reflexivity.
  - now rewrite !foldZ_cons, IH.
  - rewrite !foldZ_cons. lia.
  - now rewrite IH1.
Qed.

(** Splitting a sum along a test. *)
Lemma foldZ_split (p : A -> bool) (l : list A) :
  fold_left (fun acc x => acc + f x) l 0 =
  fold_left (fun acc x => acc + f x) (filter p l) 0 +
  fold_left (fun acc x => acc + f x) (filter (fun x => negb (p x)) l) 0.
Proof.
  induction l as [|x l IH]; [reflexivity|].
  rewrite foldZ_cons. cbn [filter]. destruct (p x); cbn [negb];
    rewrite ?foldZ_cons; lia.
Qed.

End IntegerSums.

(** A sum of group sums is the sum over the rows of all the groups. *)
Lemma foldZ_concat {A G : Type} (f : A -> Z) (rows : G -> list A)
  (gs : list G) :
  fold_left (fun acc g => acc + fold_left (fun a x => a + f x) (rows g) 0) gs 0 =
  fold_left (fun a x => a + f x) (List.concat (map rows gs)) 0.
Proof.
  induction gs as [|g gs IH]; [reflexivity|].
  rewrite foldZ_cons. cbn [map List.concat]. now rewrite foldZ_app, IH.
Qed.

(** ['count'] is a sum of ones over the cells that are not NaN. *)
Lemma count_fold {R A : Type} (col : R -> option A) (g : list R) :
  Pandas.count col g =
  fold_left (fun acc r => acc + (if notna (col r) then 1 else 0)) g 0.
Proof.
  unfold Pandas.count. induction g as [|r g IH]; [reflexivity|].
  rewrite foldZ_cons. cbn [filter]. destruct (notna (col r));
    cbn [List.length]; lia.
Qed.

Section RationalSums.

Context {A : Type} (f : A -> Q).

Local Open Scope Q_scope.

Lemma foldQ_shift (l : list A) (a : Q) :
  fold_left (fun acc x => acc + f x) l a ==
  a + fold_left (fun acc x => acc + f x) l 0.
Proof.
  revert a. induction l as [|x l IH]; intros a; cbn [fold_left]; [ring|].
  rewrite (IH (a + f x)), (IH (0 + f x)). ring.
Qed.

Lemma foldQ_cons (x : A) (l : list A) :
  fold_left (fun acc x => acc + f x) (x :: l) 0 ==
  f x + fold_left (fun acc x => acc + f x) l 0.
Proof. cbn [fold_left]. rewrite foldQ_shift. ring. Qed.

Lemma foldQ_app (l1 l2 : list A) :
  fold_left (fun acc x => acc + f x) (l1 ++ l2) 0 ==
  fold_left (fun acc x => acc + f x) l1 0 +
  fold_left (fun acc x => acc + f x) l2 0.
Proof. rewrite fold_left_app. apply foldQ_shift. Qed.

Lemma foldQ_perm (l l' : list A) :
  Permutation l l' ->
  fold_left (fun acc x => acc + f x) l 0 ==
  fold_left (fun acc x => acc + f x) l' 0.
Proof.
  induction 1 as [|x l l' _ IH|x y l|l l' l'' _ IH1 _ IH2].
  - reflexivity.
  - now rewrite !foldQ_cons, IH.
  - rewrite !foldQ_cons. ring.
  - now rewrite IH1.
Qed.

End RationalSums.

Lemma foldQ_concat {A G : Type} (f : A -> Q) (rows : G -> list A)
  (gs : list G) :
  (fold_left (fun acc g => acc + fold_left (fun a x => a + f x) (rows g) 0) gs 0 ==
   fold_left (fun a x => a + f x) (List.concat (map rows gs)) 0)%Q.
Proof.
  induction gs as [|g gs IH]; [reflexivity|].
  rewrite foldQ_cons. cbn [map List.concat]. now rewrite foldQ_app, IH.
Qed.

End SumFacts.

(** ** The recompute functions of the page *)

Module JsFacts.

Import Data Js SumFacts.

(** The test one row has to pass under the controls [f]. *)
Lemma aplicarFiltros_filter (allData : data_json) (f : Filtros) :
  exames_mes_convenio_modalidade (aplicarFiltros allData f) =
  filter (fun x =>
            (negb (truthy (convenio f)) ||
             (Fine.Convenio x =? convenio f)%string) &&
            (negb (truthy (mes f)) || mes_igual (Fine.Mes x) (mes f)) &&
            (negb (0 <? List.length (modalidades f))%nat ||
             includes (modalidades f) (Fine.Modalidade x)))
         (exames_mes_convenio_modalidade allData).
Proof.
  unfold aplicarFiltros, clonar; cbn [exames_mes_convenio_modalidade].
  destruct (truthy (convenio f)), (truthy (mes f)),
    (0 <? List.length (modalidades f))%nat; cbn [negb orb];
    rewrite ?filter_filter;
    first [ apply filter_ext; intros x; cbn [andb];
            rewrite ?andb_true_r, ?andb_assoc; reflexivity
          | symmetry; apply forallb_filter_id, forallb_forall; reflexivity ].
Qed.

Lemma includes_In (l : list string) (x : string) :
  includes l x = true <-> In x l.
Proof.
  unfold includes. rewrite existsb_exists. split.
  - intros (y & Hy & E). apply String.eqb_eq in E. now subst.
  - intros H. exists x. split; [exact H | apply String.eqb_refl].
Qed.

Lemma truthy_false (s : string) : truthy s = false <-> s = "".
Proof. unfold truthy. now rewrite negb_false_iff, String.eqb_eq. Qed.

Lemma mes_igual_eq (m : option string) (s : string) :
  mes_igual m s = true <-> m = Some s.
Proof.
  destruct m as [m|]; simpl.
  - rewrite String.eqb_eq. split; congruence.
  - split; discriminate.
Qed.

(** C7: under every state of the three controls the filtered view holds
    exactly the fine-grained rows that satisfy all selected predicates at
    once, in their original order: the payer of the row is the selected
    payer unless "all" (the empty value) is selected, its month is the
    selected month unless "all" is selected, and its modality is among the
    ticked ones unless none is ticked.  With no modality ticked nothing is
    filtered on modality: the result is the one obtained by ticking every
    modality of the data.  The other views of [filteredData] are those of
    the deep copy of the snapshot, whatever the filter. *)
Theorem aplicarFiltros_conjunctive (allData : data_json) (f : Filtros) :
  (forall x,
      In x (exames_mes_convenio_modalidade (aplicarFiltros allData f)) <->
      In x (exames_mes_convenio_modalidade allData) /\
      (convenio f = "" \/ Fine.Convenio x = convenio f) /\
      (mes f = "" \/ Fine.Mes x = Some (mes f)) /\
      (modalidades f = [] \/ In (Fine.Modalidade x) (modalidades f))) /\
  (exists keep,
      exames_mes_convenio_modalidade (aplicarFiltros allData f) =
      filter keep (exames_mes_convenio_modalidade allData)) /\
  (forall todas,
      (forall x, In x (exames_mes_convenio_modalidade allData) ->
                 In (Fine.Modalidade x) todas) ->
      exames_mes_convenio_modalidade
        (aplicarFiltros allData
           {| convenio := convenio f; mes := mes f; modalidades := [] |}) =
      exames_mes_convenio_modalidade
        (aplicarFiltros allData
           {| convenio := convenio f; mes := mes f; modalidades := todas |})) /\
  exames_mes_convenio_modalidade (aplicarFiltros allData sem_filtros) =
  exames_mes_convenio_modalidade allData /\
  resumo_mensal (aplicarFiltros allData f) = resumo_mensal (clonar allData) /\
  dist_convenio (aplicarFiltros allData f) = dist_convenio (clonar allData) /\
  dist_modalidade (aplicarFiltros allData f) =
  dist_modalidade (clonar allData) /\
  dist_modalidade_mes (aplicarFiltros allData f) = dist_modalidade_mes allData.
Proof.
  split; [|split; [|split; [|split]]].
  - intros x. rewrite aplicarFiltros_filter, filter_In.
    rewrite !andb_true_iff, !orb_true_iff, !negb_true_iff.
    rewrite !truthy_false, String.eqb_eq, mes_igual_eq, includes_In.
    assert (Hm : (0 <? List.length (modalidades f))%nat = false <->
                 modalidades f = []).
    { destruct (modalidades f); cbn; split; intros E;
        try reflexivity; discriminate E. }
    rewrite Hm. tauto.
  - eexists. apply aplicarFiltros_filter.
  - intros todas Hall. rewrite !aplicarFiltros_filter.
    apply filter_ext_in. intros x Hx. cbn [convenio mes modalidades].
    f_equal. change (negb (0 <? List.length (@nil string))%nat) with true.
    cbn [orb]. symmetry. apply orb_true_iff. right.
    apply includes_In, Hall, Hx.
  - rewrite aplicarFiltros_filter. cbn.
    apply forallb_filter_id, forallb_forall. reflexivity.
  - repeat split.
Qed.

End JsFacts.

Module ChartFacts.

Import Data Js SumFacts JsFacts.

Lemma combine_map {A B C : Type} (f : A -> B) (g : A -> C) (l : list A) :
  combine (map f l) (map g l) = map (fun x => (f x, g x)) l.
Proof. induction l as [|a l IH]; simpl; [reflexivity | now rewrite IH]. Qed.

(** *** The object [examesPosMes] *)

Lemma valor_somar_em (o : list (string * Z)) (k k' : string) (q : Z) :
  valor (somar_em o k q) k' =
  if (k =? k')%string then valor o k + q else valor o k'.
Proof.
  induction o as [|[k0 v] o IH]; cbn [somar_em valor].
  - destruct (k =? k')%string; reflexivity.
  - destruct (k0 =? k)%string eqn:E0; cbn [valor].
    + apply String.eqb_eq in E0. subst k0.
      destruct (k =? k')%string; reflexivity.
    + rewrite IH. destruct (k0 =? k')%string eqn:E1; [|reflexivity].
      apply String.eqb_eq in E1. subst k'.
      rewrite String.eqb_sym, E0. reflexivity.
Qed.

Lemma keys_somar_em (o : list (string * Z)) (k k' : string) (q : Z) :
  In k' (map fst (somar_em o k q)) <-> k' = k \/ In k' (map fst o).
Proof.
  induction o as [|[k0 v] o IH]; cbn [somar_em map fst In].
  - intuition congruence.
  - destruct (k0 =? k)%string eqn:E0; cbn [map fst In].
    + apply String.eqb_eq in E0. subst k0. intuition congruence.
    + rewrite IH. tauto.
Qed.

Lemma nodup_somar_em (o : list (string * Z)) (k : string) (q : Z) :
  NoDup (map fst o) -> NoDup (map fst (somar_em o k q)).
Proof.
  induction o as [|[k0 v] o IH]; cbn [somar_em map fst]; intros Hnd.
  - constructor; [intros [] | constructor].
  - destruct (k0 =? k)%string eqn:E0; cbn [map fst]; [exact Hnd|].
    inversion Hnd as [|? ? Hnin Hnd']; subst. constructor.
    + rewrite keys_somar_em. intros [->|Hin]; [|contradiction].
      now rewrite String.eqb_refl in E0.
    + exact (IH Hnd').
Qed.

Lemma valor_In (o : list (string * Z)) (k : string) (v : Z) :
  NoDup (map fst o) -> In (k, v) o -> valor o k = v.
Proof.
  induction o as [|[k0 v0] o IH]; cbn [map fst valor]; intros Hnd Hin.
  - destruct Hin.
  - inversion Hnd as [|? ? Hnin Hnd']; subst.
    destruct Hin as [E|Hin].
    + inversion E; subst. now rewrite String.eqb_refl.
    + destruct (k0 =? k)%string eqn:E0; [|exact (IH Hnd' Hin)].
      apply String.eqb_eq in E0. subst k0. elim Hnin.
      apply in_map_iff. now exists (k, v).
Qed.

Section Grouping.

(** Grouping rows by a text key and adding up a count, as the page does
    for the months. *)
Context {R : Type} (key : R -> string) (qtd : R -> Z).

Let step (o : list (string * Z)) (x : R) := somar_em o (key x) (qtd x).

Lemma valor_fold (l : list R) (o : list (string * Z)) (k : string) :
  valor (fold_left step l o) k =
  valor o k +
  fold_left (fun acc x => acc + qtd x)
            (filter (fun x => (key x =? k)%string) l) 0.
Proof.
  revert o. induction l as [|x l IH]; intros o; cbn [fold_left filter].
  - lia.
  - rewrite IH. unfold step. rewrite valor_somar_em.
    destruct (key x =? k)%string eqn:E.
    + apply String.eqb_eq in E. subst k. rewrite foldZ_cons. lia.
    + reflexivity.
Qed.

Lemma keys_fold (l : list R) (o : list (string * Z)) (k : string) :
  In k (map fst (fold_left step l o)) <->
  In k (map fst o) \/ exists x, In x l /\ key x = k.
Proof.
  revert o. induction l as [|x l IH]; intros o; cbn [fold_left].
  - split; [now left | intros [H|(x & [] & _)]; exact H].
  - rewrite IH. unfold step. rewrite keys_somar_em. split.
    + intros [[->|H]|(y & Hy & E)].
      * right. exists x. split; [now left | reflexivity].
      * now left.
      * right. exists y. split; [now right | exact E].
    + intros [H|(y & [<-|Hy] & E)].
      * left. now right.
      * left. left. now symmetry.
      * right. now exists y.
Qed.

Lemma nodup_fold (l : list R) (o : list (string * Z)) :
  NoDup (map fst o) -> NoDup (map fst (fold_left step l o)).
Proof.
  revert o. induction l as [|x l IH]; intros o Hnd; cbn [fold_left].
  - exact Hnd.
  - apply IH. unfold step. now apply nodup_somar_em.
Qed.

End Grouping.

(** The payer chart, the two modality charts and the cards read [allData]
    only. *)
Lemma graficos_dist (allData fd : data_json) :
  chartConvenio (atualizarGraficos allData fd) =
  {| labels := map DistConvenio.Convenio (convenioDados allData);
     data := map DistConvenio.Qtd (convenioDados allData) |} /\
  chartModalidade (atualizarGraficos allData fd) =
  {| labels := map DistModalidade.Modalidade (modalidadeDados allData);
     data := map DistModalidade.Qtd (modalidadeDados allData) |} /\
  chartModalidadeQtd (atualizarGraficos allData fd) =
  chartModalidade (atualizarGraficos allData fd).
Proof. repeat split. Qed.

(** C8, as amended: under every state of the controls the chart of exams
    per month is a grouping of the already-filtered fine-grained rows: it
    has one label per month that occurs among the filtered rows, no label
    twice, and the datum under a label is the sum of the counts of the
    filtered rows of that month.  The payer chart and the two modality
    charts are not derived from the filtered rows: they are read from the
    distribution views of the snapshot and are the same under every
    filter. *)
Theorem charts_after_filter (allData : data_json) (f : Filtros) :
  (List.length (labels (chartMes (atualizarGraficos allData (aplicarFiltros allData f)))) =
   List.length (data (chartMes (atualizarGraficos allData (aplicarFiltros allData f))))) /\
  NoDup (labels (chartMes (atualizarGraficos allData (aplicarFiltros allData f)))) /\
  (forall m,
      In m (labels (chartMes (atualizarGraficos allData (aplicarFiltros allData f)))) <->
      exists x,
        In x (exames_mes_convenio_modalidade (aplicarFiltros allData f)) /\
        chave (Fine.Mes x) = m) /\
  (forall m q,
      In (m, q)
         (combine
            (labels (chartMes (atualizarGraficos allData (aplicarFiltros allData f))))
            (data (chartMes (atualizarGraficos allData (aplicarFiltros allData f))))) ->
      q = Pandas.sum_int Fine.Qtd
            (filter (fun x => (chave (Fine.Mes x) =? m)%string)
                    (exames_mes_convenio_modalidade (aplicarFiltros allData f)))) /\
  chartConvenio (atualizarGraficos allData (aplicarFiltros allData f)) =
  chartConvenio (atualizarGraficos allData (aplicarFiltros allData sem_filtros)) /\
  chartModalidade (atualizarGraficos allData (aplicarFiltros allData f)) =
  chartModalidade (atualizarGraficos allData (aplicarFiltros allData sem_filtros)) /\
  chartModalidadeQtd (atualizarGraficos allData (aplicarFiltros allData f)) =
  chartModalidadeQtd (atualizarGraficos allData (aplicarFiltros allData sem_filtros)).
Proof.
  set (fd := aplicarFiltros allData f).
  cbn [atualizarGraficos chartMes chartConvenio chartModalidade
       chartModalidadeQtd labels data].
  split; [now rewrite !length_map|].
  split; [apply nodup_fold; constructor|].
  split.
  { intros m. unfold examesPosMes. rewrite keys_fold. cbn [map In]. tauto. }
  split; [|repeat split].
  intros m q Hin. rewrite combine_map in Hin.
  apply in_map_iff in Hin as ([k v] & E & Hin). cbn [fst snd] in E.
  inversion E; subst k v. clear E.
  assert (Hnd : NoDup (map fst (examesPosMes fd)))
    by (apply nodup_fold; constructor).
  rewrite <- (valor_In _ _ _ Hnd Hin).
  unfold examesPosMes. rewrite valor_fold. reflexivity.
Qed.

(** The claim as first written fails: with two payers and the payer
    control set to the first one, the filtered rows hold that payer only,
    yet the payer chart still shows both and is the chart of the
    unfiltered page. *)
Lemma payer_chart_ignores_filter :
  Forall (fun na =>
    let allData :=
      Views.agregar na "2024-03-01 23:00:00"
        [ Amostra.registro (Some "Ana") Amostra.jan15 (Some "Alfa")
            (Some "RAIO X TORAX") (Some 100%Q) (Some 90%Q);
          Amostra.registro (Some "Bia") Amostra.fev03 (Some "Beta")
            (Some "ULTRASSOM ABDOME") (Some 200%Q) (Some 180%Q) ] in
    let f := {| convenio := "Alfa"; mes := ""; modalidades := [] |} in
    let fd := aplicarFiltros allData f in
    map Fine.Convenio (exames_mes_convenio_modalidade fd) = ["Alfa"] /\
    chartConvenio (atualizarGraficos allData fd) =
    {| labels := ["Alfa"; "Beta"]; data := [1; 1] |} /\
    chartModalidade (atualizarGraficos allData fd) =
    {| labels := ["Raio X"; "Ultrassonografia"]; data := [1; 1] |} /\
    chartMes (atualizarGraficos allData fd) =
    {| labels := ["2024-01"]; data := [1] |} /\
    chartMes (atualizarGraficos allData (aplicarFiltros allData sem_filtros)) =
    {| labels := ["2024-01"; "2024-02"]; data := [1; 1] |})
  politicas.
Proof. repeat constructor. Qed.

(** C10: under every state of the controls the payer bar chart shows the
    rows of the snapshot's payer distribution other than ["CORTESIA"], and
    the modality doughnut, the modality bar chart and the modality cards
    show the rows of the snapshot's modality distribution other than
    ["Outros"]; none of the four depends on the filter.  The excluded
    groups stay where they were: the distribution views kept in
    [filteredData] list the same groups with the same counts as those of
    the snapshot, and the KPI count adds up every filtered fine-grained
    row, those of ["CORTESIA"] and of ["Outros"] included. *)
Theorem distribution_displays_unfiltered (allData : data_json) (f : Filtros) :
  (forall c q,
      In (c, q)
         (combine
            (labels (chartConvenio (atualizarGraficos allData (aplicarFiltros allData f))))
            (data (chartConvenio (atualizarGraficos allData (aplicarFiltros allData f))))) <->
      c <> "CORTESIA" /\
      exists r, In r (dist_convenio allData) /\
                DistConvenio.Convenio r = c /\ DistConvenio.Qtd r = q) /\
  (forall m q,
      In (m, q)
         (combine
            (labels (chartModalidade (atualizarGraficos allData (aplicarFiltros allData f))))
            (data (chartModalidade (atualizarGraficos allData (aplicarFiltros allData f))))) <->
      m <> "Outros" /\
      exists r, In r (dist_modalidade allData) /\
                DistModalidade.Modalidade r = m /\ DistModalidade.Qtd r = q) /\
  chartModalidadeQtd (atualizarGraficos allData (aplicarFiltros allData f)) =
  chartModalidade (atualizarGraficos allData (aplicarFiltros allData f)) /\
  (forall c,
      In c (cards (atualizarDashboard allData (aplicarFiltros allData f))) <->
      titulo c <> "Outros" /\
      exists r, In r (dist_modalidade allData) /\
                titulo c = DistModalidade.Modalidade r /\
                card_Qtd c = DistModalidade.Qtd r /\
                card_Receita_Bruta c = DistModalidade.Receita_Bruta r /\
                card_Receita_Liquida c = DistModalidade.Receita_Liquida r) /\
  (graficos (atualizarDashboard allData (aplicarFiltros allData f))).(chartConvenio) =
  (graficos (atualizarDashboard allData (aplicarFiltros allData sem_filtros))).(chartConvenio) /\
  (graficos (atualizarDashboard allData (aplicarFiltros allData f))).(chartModalidade) =
  (graficos (atualizarDashboard allData (aplicarFiltros allData sem_filtros))).(chartModalidade) /\
  (graficos (atualizarDashboard allData (aplicarFiltros allData f))).(chartModalidadeQtd) =
  (graficos (atualizarDashboard allData (aplicarFiltros allData sem_filtros))).(chartModalidadeQtd) /\
  cards (atualizarDashboard allData (aplicarFiltros allData f)) =
  cards (atualizarDashboard allData (aplicarFiltros allData sem_filtros)) /\
  map DistConvenio.Convenio (dist_convenio (aplicarFiltros allData f)) =
  map DistConvenio.Convenio (dist_convenio allData) /\
  map DistConvenio.Qtd (dist_convenio (aplicarFiltros allData f)) =
  map DistConvenio.Qtd (dist_convenio allData) /\
  map DistModalidade.Modalidade (dist_modalidade (aplicarFiltros allData f)) =
  map DistModalidade.Modalidade (dist_modalidade allData) /\
  map DistModalidade.Qtd (dist_modalidade (aplicarFiltros allData f)) =
  map DistModalidade.Qtd (dist_modalidade allData) /\
  qtd (atualizarKPIs (aplicarFiltros allData f)) =
  Pandas.sum_int Fine.Qtd
    (filter (fun x => (Fine.Convenio x =? "CORTESIA")%string)
            (exames_mes_convenio_modalidade (aplicarFiltros allData f))) +
  Pandas.sum_int Fine.Qtd
    (filter (fun x => negb (Fine.Convenio x =? "CORTESIA")%string)
            (exames_mes_convenio_modalidade (aplicarFiltros allData f))) /\
  qtd (atualizarKPIs (aplicarFiltros allData f)) =
  Pandas.sum_int Fine.Qtd
    (filter (fun x => (Fine.Modalidade x =? "Outros")%string)
            (exames_mes_convenio_modalidade (aplicarFiltros allData f))) +
  Pandas.sum_int Fine.Qtd
    (filter (fun x => negb (Fine.Modalidade x =? "Outros")%string)
            (exames_mes_convenio_modalidade (aplicarFiltros allData f))).
Proof.
  set (fd := aplicarFiltros allData f).
  split.
  { intros c q. cbn [atualizarGraficos chartConvenio labels data].
    rewrite combine_map, in_map_iff. unfold convenioDados. split.
    - intros (r & E & Hr). apply filter_In in Hr as [Hr Hne].
      inversion E; subst c q. split.
      + intros Ec. rewrite Ec, String.eqb_refl in Hne. discriminate.
      + now exists r.
    - intros (Hne & r & Hr & <- & <-). exists r. split; [reflexivity|].
      apply filter_In. split; [exact Hr|].
      apply negb_true_iff, String.eqb_neq, Hne. }
  split.
  { intros m q. cbn [atualizarGraficos chartModalidade labels data].
    rewrite combine_map, in_map_iff. unfold modalidadeDados. split.
    - intros (r & E & Hr). apply filter_In in Hr as [Hr Hne].
      inversion E; subst m q. split.
      + intros Ec. rewrite Ec, String.eqb_refl in Hne. discriminate.
      + now exists r.
    - intros (Hne & r & Hr & <- & <-). exists r. split; [reflexivity|].
      apply filter_In. split; [exact Hr|].
      apply negb_true_iff, String.eqb_neq, Hne. }
  split; [reflexivity|]. split.
  { intros c. cbn [atualizarDashboard cards]. unfold atualizarCards.
    rewrite in_map_iff. split.
    - intros (r & <- & Hr). apply filter_In in Hr as [Hr Hne].
      cbn [titulo card_Qtd card_Receita_Bruta card_Receita_Liquida]. split.
      + intros Ec. rewrite Ec, String.eqb_refl in Hne. discriminate.
      + exists r. repeat split. exact Hr.
    - intros (Hne & r & Hr & E1 & E2 & E3 & E4). exists r. split.
      + destruct c; cbn in *; congruence.
      + apply filter_In. split; [exact Hr|].
        apply negb_true_iff, String.eqb_neq. now rewrite <- E1. }
  repeat (split; [reflexivity|]).
  unfold fd, aplicarFiltros, clonar; cbn [dist_convenio dist_modalidade].
  rewrite !map_map. cbn [DistConvenio.Convenio DistConvenio.Qtd
                         DistModalidade.Modalidade DistModalidade.Qtd].
  repeat (split; [reflexivity|]).
  unfold atualizarKPIs, Pandas.sum_int; cbn [qtd]. split.
  - apply (foldZ_split Fine.Qtd).
  - apply (foldZ_split Fine.Qtd).
Qed.

End ChartFacts.

(** ** Group-by *)

Module GroupFacts.

Import Pandas SumFacts.

Lemma insert_key_perm {K : Type} `{Key K} (k : K) (l : list K) :
  Permutation (insert_key k l) (k :: l).
Proof.
  induction l as [|x l IH]; cbn [insert_key]; [reflexivity|].
  destruct (key_leb k x); [reflexivity|].
  rewrite IH. apply perm_swap.
Qed.

Lemma sort_keys_perm {K : Type} `{Key K} (l : list K) :
  Permutation (sort_keys l) l.
Proof.
  induction l as [|x l IH]; cbn [sort_keys fold_right]; [reflexivity|].
  rewrite insert_key_perm. now apply perm_skip.
Qed.

(** Two tests that never hold together split a frame in two parts. *)
Lemma filter_disjoint_perm {R : Type} (p q : R -> bool) (df : list R) :
  (forall r, In r df -> p r = true -> q r = false) ->
  Permutation (filter p df ++ filter q df) (filter (fun r => p r || q r) df).
Proof.
  induction df as [|a df IH]; intros Hd; cbn [filter]; [reflexivity|].
  assert (IH' := IH (fun r Hr => Hd r (or_intror Hr))).
  destruct (p a) eqn:Hp; cbn [orb].
  - rewrite (Hd a (or_introl eq_refl) Hp). cbn [app]. now apply perm_skip.
  - destruct (q a).
    + symmetry. rewrite <- IH'. apply Permutation_middle.
    + exact IH'.
Qed.

Section GroupBy.

Context {R K : Type} `{Key K} (key : R -> option K).

Lemma has_key_true (k : K) (r : R) :
  has_key key k r = true <-> key r = Some k.
Proof.
  unfold has_key. destruct (key r) as [k'|]; [|split; discriminate].
  destruct (key_eq_dec k' k) as [->|n]; split; congruence.
Qed.

Lemma keys_of_In (df : list R) (k : K) :
  In k (keys_of key df) <-> exists r, In r df /\ key r = Some k.
Proof.
  unfold keys_of. rewrite in_flat_map. split.
  - intros (r & Hr & Hk). exists r. split; [exact Hr|].
    destruct (key r) as [k'|]; [|destruct Hk].
    destruct Hk as [->|[]]. reflexivity.
  - intros (r & Hr & E). exists r. split; [exact Hr|]. rewrite E. now left.
Qed.

(** The keys of the groups: each key of the frame, once. *)
Lemma groupby_keys (df : list R) :
  map fst (groupby key df) = sort_keys (nodup key_eq_dec (keys_of key df)).
Proof.
  unfold groupby. rewrite map_map. cbn [fst]. apply map_id.
Qed.

Lemma groupby_keys_NoDup (df : list R) : NoDup (map fst (groupby key df)).
Proof.
  rewrite groupby_keys.
  apply (Permutation_NoDup (l := nodup key_eq_dec (keys_of key df))).
  - symmetry. apply sort_keys_perm.
  - apply NoDup_nodup.
Qed.

Lemma groupby_keys_In (df : list R) (k : K) :
  In k (map fst (groupby key df)) <-> exists r, In r df /\ key r = Some k.
Proof.
  rewrite groupby_keys, <- keys_of_In.
  split; intros Hin.
  - apply (nodup_In key_eq_dec).
    exact (Permutation_in k (sort_keys_perm _) Hin).
  - apply (nodup_In key_eq_dec) in Hin.
    exact (Permutation_in k (Permutation_sym (sort_keys_perm _)) Hin).
Qed.

(** A group holds the rows of its key, in the order of the frame. *)
Lemma groupby_In (df : list R) (k : K) (g : list R) :
  In (k, g) (groupby key df) ->
  g = filter (has_key key k) df /\ In k (map fst (groupby key df)).
Proof.
  intros Hin. split.
  - unfold groupby in Hin. apply in_map_iff in Hin as (k' & E & _).
    now inversion E.
  - apply in_map_iff. now exists (k, g).
Qed.

Lemma concat_groups_perm (ks : list K) (df : list R) :
  NoDup ks ->
  Permutation
    (List.concat (map (fun k => filter (has_key key k) df) ks))
    (filter (fun r => existsb (fun k => has_key key k r) ks) df).
Proof.
  induction 1 as [|k ks Hnin Hnd IH]; cbn [map List.concat existsb].
  - induction df as [|a df IHdf]; [reflexivity | exact IHdf].
  - rewrite IH. apply filter_disjoint_perm.
    intros r _ Hk. apply has_key_true in Hk.
    destruct (existsb (fun k0 => has_key key k0 r) ks) eqn:E; [|reflexivity].
    apply existsb_exists in E as (k' & Hk' & E').
    apply has_key_true in E'. congruence.
Qed.

(** The groups partition the rows whose key is not NaN. *)
Lemma groupby_partition (df : list R) :
  Permutation (List.concat (map snd (groupby key df)))
              (filter (fun r => notna (key r)) df).
Proof.
  assert (E : map snd (groupby key df) =
              map (fun k => filter (has_key key k) df)
                  (map fst (groupby key df))).
  { unfold groupby. rewrite !map_map. reflexivity. }
  rewrite E, (concat_groups_perm _ df (groupby_keys_NoDup df)).
  erewrite filter_ext_in; [reflexivity|].
  intros r Hr. cbn beta. destruct (key r) as [k|] eqn:Ek; cbn [notna].
  - apply existsb_exists. exists k. split.
    + apply groupby_keys_In. now exists r.
    + now apply has_key_true.
  - destruct (existsb _ _) eqn:Ex; [|reflexivity].
    apply existsb_exists in Ex as (k & _ & Hk).
    apply has_key_true in Hk. congruence.
Qed.

End GroupBy.

End GroupFacts.

(** ** The views *)

Module ViewFacts.

Import Pandas SumFacts GroupFacts Views.

Lemma foldZ_map {A B : Type} (f : B -> Z) (g : A -> B) (l : list A) (a : Z) :
  fold_left (fun acc x => acc + f x) (map g l) a =
  fold_left (fun acc x => acc + f (g x)) l a.
Proof. revert a. induction l as [|x l IH]; intros a; [reflexivity | apply IH]. Qed.

Lemma foldZ_ext {A : Type} (f g : A -> Z) (l : list A) (a : Z) :
  (forall x, f x = g x) ->
  fold_left (fun acc x => acc + f x) l a =
  fold_left (fun acc x => acc + g x) l a.
Proof.
  intros E. revert a. induction l as [|x l IH]; intros a; [reflexivity|].
  cbn [fold_left]. now rewrite E, IH.
Qed.

Lemma foldQ_map {A B : Type} (f : B -> Q) (g : A -> B) (l : list A) (a : Q) :
  fold_left (fun acc x => (acc + f x)%Q) (map g l) a =
  fold_left (fun acc x => (acc + f (g x))%Q) l a.
Proof. revert a. induction l as [|x l IH]; intros a; [reflexivity | apply IH]. Qed.

Lemma foldQ_ext {A : Type} (f g : A -> Q) (l : list A) (a : Q) :
  (forall x, f x = g x) ->
  fold_left (fun acc x => (acc + f x)%Q) l a =
  fold_left (fun acc x => (acc + g x)%Q) l a.
Proof.
  intros E. revert a. induction l as [|x l IH]; intros a; [reflexivity|].
  cbn [fold_left]. now rewrite E, IH.
Qed.

Section Totals.

Context {K : Type} `{Key K} (key : ExamRecord -> option K).

(** Adding a per-record quantity group by group, then over the groups,
    adds it over the records that have a key. *)
Lemma groupby_total_Z (f : ExamRecord -> Z) (df : list ExamRecord) :
  fold_left (fun acc kg =>
               acc + fold_left (fun a r => a + f r) (snd kg) 0)
            (groupby key df) 0 =
  fold_left (fun a r => a + f r) (filter (fun r => notna (key r)) df) 0.
Proof.
  rewrite (foldZ_concat f snd).
  apply foldZ_perm, groupby_partition.
Qed.

Lemma groupby_total_Q (f : ExamRecord -> Q) (df : list ExamRecord) :
  (fold_left (fun acc kg =>
                acc + fold_left (fun a r => a + f r) (snd kg) 0)
             (groupby key df) 0 ==
   fold_left (fun a r => a + f r) (filter (fun r => notna (key r)) df) 0)%Q.
Proof.
  rewrite (foldQ_concat f snd).
  apply foldQ_perm, groupby_partition.
Qed.

End Totals.

Lemma filter_all {A : Type} (p : A -> bool) (l : list A) :
  (forall x, In x l -> p x = true) -> filter p l = l.
Proof. intros Hp. apply forallb_filter_id, forallb_forall, Hp. Qed.

(** [rint] is within one half of its argument, and on a tie it is the
    even neighbour. *)
Lemma rint_spec (y : Q) :
  (inject_Z (Num.rint y) - (1 # 2) <= y)%Q /\
  (y <= inject_Z (Num.rint y) + (1 # 2))%Q /\
  ((y == inject_Z (Num.rint y) - (1 # 2) \/
    y == inject_Z (Num.rint y) + (1 # 2))%Q -> Z.even (Num.rint y) = true).
Proof.
  pose proof (Qfloor_le y) as Hlo. pose proof (Qlt_floor y) as Hhi.
  rewrite inject_Z_plus in Hhi. change (inject_Z 1) with 1%Q in Hhi.
  unfold Num.rint.
  destruct (Qcompare (y - inject_Z (Qfloor y)) (1 # 2)) eqn:E.
  - apply Qeq_alt in E.
    destruct (Z.even (Qfloor y)) eqn:Ev.
    + repeat split; try lra. intros _. exact Ev.
    + rewrite inject_Z_plus. change (inject_Z 1) with 1%Q.
      repeat split; try lra. intros _.
      rewrite Z.add_1_r, Z.even_succ, <- Z.negb_even, Ev. reflexivity.
  - apply Qlt_alt in E. repeat split; try lra; intros [H|H]; lra.
  - apply Qgt_alt in E. rewrite inject_Z_plus. change (inject_Z 1) with 1%Q.
    repeat split; try lra; intros [H|H]; lra.
Qed.

(** Three operations that each err by at most [2^-53] err together by
    at most [2^-51]. *)
Lemma erro_composto (d1 d2 d3 : Q) :
  Num.admissivel d1 -> Num.admissivel d2 -> Num.admissivel d3 ->
  (- (4 * Num.u53) <= (1 + d1) * (1 + d2) * (1 + d3) - 1 /\
   (1 + d1) * (1 + d2) * (1 + d3) - 1 <= 4 * Num.u53)%Q.
Proof.
  unfold Num.admissivel. intros [L1 U1] [L2 U2] [L3 U3].
  set (u := Num.u53) in *.
  assert (Hu : (0 <= u)%Q) by (unfold u, Num.u53, Qle; cbn; lia).
  assert (Hu1 : (u <= 1 # 1000)%Q) by (unfold u, Num.u53, Qle; cbn; lia).
  set (a := ((1 + d1) * (1 + d2))%Q).
  assert (Ha : (1 - 2 * u - u * u <= a /\ a <= 1 + 2 * u + u * u)%Q).
  { unfold a. split; nra. }
  destruct Ha as [La Ua].
  assert (Huu : (u * u <= u * (1 # 1000))%Q) by nra.
  split; nra.
Qed.

(** Whatever the three operations of line 125 lose, the integer reached
    by [np.rint] is within one half, and [2^-51] of the value, of the
    exact net / gross x 100 x 100. *)
Lemma lucro_n_bound (liquida bruta d1 d2 d3 : Q) :
  Num.admissivel d1 -> Num.admissivel d2 -> Num.admissivel d3 ->
  (Qabs (inject_Z (Num.lucro_n d1 d2 d3 liquida bruta) -
         liquida / bruta * 100 * 100) <=
   (1 # 2) + Qabs (liquida / bruta * 100 * 100) * (4 * Num.u53))%Q.
Proof.
  intros A1 A2 A3.
  destruct (erro_composto d1 d2 d3 A1 A2 A3) as [Le Ue].
  unfold Num.lucro_n.
  set (q := (liquida / bruta)%Q) in *.
  destruct (rint_spec (Num.fl d3 (Num.fl d2 (Num.fl d1 q * 100) * 100)))
    as (H1 & H2 & _).
  set (n := inject_Z (Num.rint
                        (Num.fl d3 (Num.fl d2 (Num.fl d1 q * 100) * 100))))
    in *.
  assert (Ey : (Num.fl d3 (Num.fl d2 (Num.fl d1 q * 100) * 100) ==
                q * 100 * 100 * ((1 + d1) * (1 + d2) * (1 + d3)))%Q)
    by (unfold Num.fl; ring).
  rewrite Ey in H1, H2.
  set (y := (q * 100 * 100)%Q) in *.
  set (e := ((1 + d1) * (1 + d2) * (1 + d3))%Q) in *.
  assert (Hu : (0 <= 4 * Num.u53)%Q) by (unfold Num.u53, Qle; cbn; lia).
  set (u4 := (4 * Num.u53)%Q) in *.
  apply Qabs_Qle_condition.
  destruct (Qlt_le_dec y 0) as [Hy|Hy].
  - rewrite (Qabs_neg y) by lra. split; nra.
  - rewrite (Qabs_pos y) by exact Hy. split; nra.
Qed.

Section Policy.

(** The statements below hold under either behaviour of [astype(str)]. *)
Variable na : na_policy.

(** The [notna] filters of lines 116, 126 and 153 remove nothing: the
    month of a group is a string. *)
Lemma exames_rows (df : list ExamRecord) :
  exames_mes_convenio_modalidade na df =
  map (fun kg : string * string * string * list ExamRecord =>
         {| Fine.Mes := Some (fst (fst (fst kg)));
            Fine.Convenio := snd (fst (fst kg));
            Fine.Modalidade := snd (fst kg);
            Fine.Qtd := count Nome_Paciente (snd kg);
            Fine.Receita_Bruta := sum Valor_Exame (snd kg);
            Fine.Receita_Liquida := sum RDF (snd kg) |})
      (groupby (by_mes_convenio_modalidade na) df).
Proof.
  unfold exames_mes_convenio_modalidade.
  rewrite forallb_filter_id.
  - apply map_ext. now intros [[[m c] md] g].
  - apply forallb_forall. intros x Hx.
    apply in_map_iff in Hx as ([[[m c] md] g] & <- & _). reflexivity.
Qed.

Lemma resumo_rows (df : list ExamRecord) :
  resumo_mensal na df =
  map (fun kg : string * list ExamRecord =>
         {| Resumo.Mes := Some (fst kg);
            Resumo.Qtd_Exames := count Nome_Paciente (snd kg);
            Resumo.Receita_Bruta := sum Valor_Exame (snd kg);
            Resumo.Receita_Liquida := sum RDF (snd kg);
            Resumo.Percentual_Lucro :=
              Num.round2 (Num.fmul100
                (Num.fdiv (sum RDF (snd kg)) (sum Valor_Exame (snd kg)))) |})
      (groupby (Ano_Mes na) df).
Proof.
  unfold resumo_mensal.
  rewrite forallb_filter_id.
  - apply map_ext. now intros [m g].
  - apply forallb_forall. intros x Hx.
    apply in_map_iff in Hx as ([m g] & <- & _). reflexivity.
Qed.

Lemma by3_notna (r : ExamRecord) :
  notna (by_mes_convenio_modalidade na r) =
  notna (Ano_Mes na r) && notna (Convenio r).
Proof.
  unfold by_mes_convenio_modalidade, Modalidade.
  now destruct (Ano_Mes na r), (Convenio r).
Qed.

(** A record with a parsable date has a month key. *)
Lemma Ano_Mes_parsable (r : ExamRecord) :
  Data_Realizacao r <> None -> notna (Ano_Mes na r) = true.
Proof.
  unfold Ano_Mes. destruct (Data_Realizacao r); [reflexivity | congruence].
Qed.

(** Totals of the fine-grained view, over the records. *)
Lemma exames_total_qtd (df : list ExamRecord) :
  sum_int Fine.Qtd (exames_mes_convenio_modalidade na df) =
  count Nome_Paciente
    (filter (fun r => notna (Ano_Mes na r) && notna (Convenio r)) df).
Proof.
  rewrite exames_rows. unfold sum_int. rewrite foldZ_map. cbn [Fine.Qtd].
  rewrite (foldZ_ext _ _ _ _ (fun kg => count_fold Nome_Paciente (snd kg))).
  rewrite (groupby_total_Z (by_mes_convenio_modalidade na)), count_fold.
  f_equal. apply filter_ext, by3_notna.
Qed.

Lemma exames_total_col (col : ExamRecord -> option Q)
  (proj : Fine.row -> Q) (df : list ExamRecord) :
  (forall m c md g,
      proj {| Fine.Mes := Some m; Fine.Convenio := c; Fine.Modalidade := md;
              Fine.Qtd := count Nome_Paciente g;
              Fine.Receita_Bruta := sum Valor_Exame g;
              Fine.Receita_Liquida := sum RDF g |} = sum col g) ->
  (fold_left (fun acc x => acc + proj x)
             (exames_mes_convenio_modalidade na df) 0 ==
   sum col
     (filter (fun r => notna (Ano_Mes na r) && notna (Convenio r)) df))%Q.
Proof.
  intros Hproj. rewrite exames_rows, foldQ_map.
  rewrite (foldQ_ext _ (fun kg => sum col (snd kg))).
  - unfold sum.
    rewrite (groupby_total_Q (by_mes_convenio_modalidade na)
               (fun r => Num.nan0 (col r))).
    rewrite (filter_ext _ _ by3_notna). reflexivity.
  - intros kg. apply Hproj.
Qed.

(** Totals of the monthly summary, over the records. *)
Lemma resumo_total_qtd (df : list ExamRecord) :
  total_exames (resumo_mensal na df) =
  count Nome_Paciente (filter (fun r => notna (Ano_Mes na r)) df).
Proof.
  unfold total_exames. rewrite resumo_rows. unfold sum_int.
  rewrite foldZ_map. cbn [Resumo.Qtd_Exames].
  rewrite (foldZ_ext _ _ _ _ (fun kg => count_fold Nome_Paciente (snd kg))).
  now rewrite (groupby_total_Z (Ano_Mes na)), count_fold.
Qed.




End Policy.







(** Where the gross sum of a month is 0 the division is not guarded: the
    stored percentage is NaN (net 0) or an infinity. *)
Lemma percentual_lucro_zero_gross :
  Forall (fun na =>
    let df := [ Amostra.registro (Some "Ana") Amostra.jan15 (Some "CORTESIA")
                  (Some "RAIO X TORAX") (Some 0%Q) (Some 0%Q);
                Amostra.registro (Some "Bia") Amostra.fev03 (Some "CORTESIA")
                  (Some "RAIO X TORAX") (Some 0%Q) (Some 50%Q) ] in
    map Resumo.Percentual_Lucro (resumo_mensal na df) = [Num.NaN; Num.PInf])
  politicas.
Proof. repeat constructor. Qed.

(** C2 at a record whose exam date cannot be parsed.  Where [astype(str)]
    prints the missing period, the month key of the record is the string
    ["NaT"], which [notna] keeps: the record is a row of each of the three
    month-keyed views.  In both distributions it is counted, as the claim
    says. *)
Theorem unparsable_date_stays_in_month_views :
  let r := Amostra.registro (Some "Ana") None (Some "InsCo")
             (Some "MAMOGRAFIA BILATERAL") (Some 150%Q) (Some 120%Q) in
  Ano_Mes NaAsText r = Some "NaT" /\
  exames_mes_convenio_modalidade NaAsText [r] =
  [ {| Fine.Mes := Some "NaT"; Fine.Convenio := "InsCo";
       Fine.Modalidade := "Mamografia"; Fine.Qtd := 1;
       Fine.Receita_Bruta := 150; Fine.Receita_Liquida := 120 |} ] /\
  map Resumo.Mes (resumo_mensal NaAsText [r]) = [Some "NaT"] /\
  map Resumo.Qtd_Exames (resumo_mensal NaAsText [r]) = [1] /\
  dist_modalidade_mes NaAsText [r] =
  [ {| DistModalidadeMes.Mes := Some "NaT";
       DistModalidadeMes.Modalidade := "Mamografia";
       DistModalidadeMes.Qtd := 1 |} ] /\
  map DistConvenio.Convenio (dist_convenio [r]) = ["InsCo"] /\
  map DistConvenio.Qtd (dist_convenio [r]) = [1] /\
  map DistModalidade.Modalidade (dist_modalidade [r]) = ["Mamografia"] /\
  map DistModalidade.Qtd (dist_modalidade [r]) = [1].
Proof. vm_compute. repeat split. Qed.

(** The same record where [astype(str)] keeps the missing period missing:
    the group-bys drop it and the month-keyed views are empty. *)
Lemma unparsable_date_dropped_when_kept_missing :
  let r := Amostra.registro (Some "Ana") None (Some "InsCo")
             (Some "MAMOGRAFIA BILATERAL") (Some 150%Q) (Some 120%Q) in
  Ano_Mes NaKept r = None /\
  exames_mes_convenio_modalidade NaKept [r] = [] /\
  resumo_mensal NaKept [r] = [] /\
  dist_modalidade_mes NaKept [r] = [].
Proof. vm_compute. repeat split. Qed.

End ViewFacts.

(** ** Order of the distribution views *)

Module SortFacts.

Import Pandas GroupFacts Views.

(** *** The order of strings *)

Lemma ltb_trans (a b c : string) :
  (a <? b)%string = true -> (b <? c)%string = true -> (a <? c)%string = true.
Proof.
  unfold String.ltb. intros Hab Hbc.
  destruct (a ?= b)%string eqn:E1; try discriminate.
  destruct (b ?= c)%string eqn:E2; try discriminate.
  apply OrderedTypeEx.String_as_OT.cmp_lt in E1, E2.
  pose proof (OrderedTypeEx.String_as_OT.lt_trans _ _ _ E1 E2) as E3.
  apply OrderedTypeEx.String_as_OT.cmp_lt in E3.
  unfold OrderedTypeEx.String_as_OT.cmp in E3. now rewrite E3.
Qed.

Lemma leb_neq_ltb (a b : string) :
  (a <=? b)%string = true -> a <> b -> (a <? b)%string = true.
Proof.
  unfold String.leb, String.ltb. intros Hle Hne.
  destruct (a ?= b)%string eqn:E; try discriminate; [|reflexivity].
  apply String.compare_eq_iff in E. contradiction.
Qed.

Lemma leb_false_ltb (a b : string) :
  (a <=? b)%string = false -> (b <? a)%string = true.
Proof.
  unfold String.leb, String.ltb. intros Hle.
  rewrite String.compare_antisym.
  destruct (a ?= b)%string; try discriminate. reflexivity.
Qed.

Lemma ltb_irrefl (a : string) : (a <? a)%string = false.
Proof.
  unfold String.ltb. destruct (a ?= a)%string eqn:E; try reflexivity.
  pose proof (String.compare_antisym a a) as H. rewrite E in H. discriminate.
Qed.

(** *** The groups come out in strictly ascending key order *)

Lemma insert_key_In (k w : string) (l : list string) :
  In w (insert_key k l) <-> w = k \/ In w l.
Proof.
  split; intros Hin.
  - apply (Permutation_in w (insert_key_perm k l)) in Hin.
    destruct Hin as [<-|Hin]; [now left | now right].
  - apply (Permutation_in w (Permutation_sym (insert_key_perm k l))).
    destruct Hin as [->|Hin]; [now left | now right].
Qed.

Lemma insert_key_sorted (k : string) (l : list string) :
  StronglySorted (fun a b => (a <? b)%string = true) l ->
  ~ In k l ->
  StronglySorted (fun a b => (a <? b)%string = true) (insert_key k l).
Proof.
  induction 1 as [|x l Hs IH Hx]; intros Hnin; cbn [insert_key].
  - repeat constructor.
  - cbn [key_leb Key_string].
    destruct (k <=? x)%string eqn:E.
    + assert (Hkx : (k <? x)%string = true).
      { apply leb_neq_ltb; [exact E|]. intros ->. apply Hnin. now left. }
      constructor; [now constructor|]. constructor; [exact Hkx|].
      apply Forall_forall. intros z Hz. apply (ltb_trans k x z Hkx).
      rewrite Forall_forall in Hx. exact (Hx z Hz).
    + constructor.
      * apply IH. intros Hin. apply Hnin. now right.
      * apply Forall_forall. intros z Hz. apply insert_key_In in Hz.
        destruct Hz as [->|Hz]; [exact (leb_false_ltb _ _ E)|].
        rewrite Forall_forall in Hx. exact (Hx z Hz).
Qed.

Lemma sort_keys_sorted (l : list string) :
  NoDup l ->
  StronglySorted (fun a b => (a <? b)%string = true) (sort_keys l).
Proof.
  induction 1 as [|k l Hnin Hnd IH]; cbn [sort_keys fold_right].
  - constructor.
  - apply insert_key_sorted; [exact IH|].
    intros Hin. apply Hnin.
    exact (Permutation_in k (sort_keys_perm l) Hin).
Qed.

(** *** Sorting by count, descending *)

Section SortValues.

Context {R : Type} (col : R -> Z) (key : R -> string).

(** Larger count first; among equal counts, smaller key first. *)
Let before (a b : R) : Prop :=
  col b < col a \/ (col a = col b /\ (key a <? key b)%string = true).

Lemma insert_desc_perm (x : R) (l : list R) :
  Permutation (insert_desc col x l) (x :: l).
Proof.
  induction l as [|y l IH]; cbn [insert_desc]; [reflexivity|].
  destruct (col y <=? col x); [reflexivity|].
  rewrite IH. apply perm_swap.
Qed.

Lemma sort_values_desc_perm (l : list R) :
  Permutation (sort_values_desc col l) l.
Proof.
  induction l as [|x l IH]; cbn [sort_values_desc fold_right]; [reflexivity|].
  rewrite insert_desc_perm. now apply perm_skip.
Qed.

Lemma insert_desc_sorted (x : R) (l : list R) :
  StronglySorted before l ->
  Forall (fun y => (key x <? key y)%string = true) l ->
  StronglySorted before (insert_desc col x l).
Proof.
  induction 1 as [|y l Hs IH Hy]; intros Hk; cbn [insert_desc].
  - repeat constructor.
  - inversion Hk as [|? ? Hxy Hk']; subst.
    rewrite Forall_forall in Hy, Hk'.
    destruct (col y <=? col x) eqn:E.
    + apply Z.leb_le in E.
      constructor; [constructor; [exact Hs | now apply Forall_forall]|].
      constructor.
      * unfold before. destruct (Z.eq_dec (col x) (col y)); [right|left];
          [now split | lia].
      * apply Forall_forall. intros z Hz. specialize (Hy z Hz).
        specialize (Hk' z Hz). unfold before in *.
        destruct (Z.eq_dec (col x) (col z)); [right|left];
          [now split | lia].
    + apply Z.leb_gt in E. constructor.
      * apply IH. now apply Forall_forall.
      * apply Forall_forall. intros z Hz.
        apply (Permutation_in z (insert_desc_perm x l)) in Hz.
        destruct Hz as [<-|Hz]; [left; exact E | exact (Hy z Hz)].
Qed.

Lemma sort_values_desc_sorted (l : list R) :
  StronglySorted (fun a b => (key a <? key b)%string = true) l ->
  StronglySorted before (sort_values_desc col l).
Proof.
  induction 1 as [|x l Hs IH Hx]; cbn [sort_values_desc fold_right].
  - constructor.
  - apply insert_desc_sorted; [exact IH|].
    apply Forall_forall. intros z Hz.
    apply (Permutation_in z (sort_values_desc_perm l)) in Hz.
    rewrite Forall_forall in Hx. exact (Hx z Hz).
Qed.

End SortValues.

(** A list mapped from a strictly ascending list of keys. *)
Lemma sorted_map {A B : Type} (f : A -> B) (P : B -> B -> Prop) (l : list A) :
  StronglySorted (fun a b => P (f a) (f b)) l -> StronglySorted P (map f l).
Proof.
  induction 1 as [|x l Hs IH Hx]; cbn [map]; constructor; [exact IH|].
  apply Forall_forall. intros z Hz. apply in_map_iff in Hz as (a & <- & Ha).
  rewrite Forall_forall in Hx. exact (Hx a Ha).
Qed.

Lemma sorted_of_map {A B : Type} (f : A -> B) (P : B -> B -> Prop)
  (l : list A) :
  StronglySorted P (map f l) -> StronglySorted (fun a b => P (f a) (f b)) l.
Proof.
  induction l as [|x l IH]; cbn [map]; intros Hs; [constructor|].
  inversion Hs as [|? ? Hs' Hx]; subst. constructor; [exact (IH Hs')|].
  apply Forall_forall. intros a Ha. rewrite Forall_forall in Hx.
  apply Hx, in_map_iff. now exists a.
Qed.

Lemma groupby_sorted {R : Type} (key : R -> option string) (df : list R) :
  StronglySorted (fun a b => (fst a <? fst b)%string = true) (groupby key df).
Proof.
  apply (sorted_of_map fst (fun a b => (a <? b)%string = true)).
  rewrite groupby_keys. apply sort_keys_sorted, NoDup_nodup.
Qed.

Lemma sorted_impl {A : Type} (P Q : A -> A -> Prop) (l : list A) :
  (forall a b, P a b -> Q a b) -> StronglySorted P l -> StronglySorted Q l.
Proof.
  intros HPQ. induction 1 as [|x l Hs IH Hx]; constructor; [exact IH|].
  apply Forall_forall. intros z Hz. rewrite Forall_forall in Hx.
  exact (HPQ _ _ (Hx z Hz)).
Qed.

(** The rows of the two distributions before [sort_values]: one per
    group, in ascending key order. *)
Lemma dist_convenio_rows (df : list ExamRecord) :
  exists rows,
    dist_convenio df = sort_values_desc DistConvenio.Qtd rows /\
    map DistConvenio.Convenio rows = map fst (groupby Convenio df) /\
    StronglySorted
      (fun a b => (DistConvenio.Convenio a <? DistConvenio.Convenio b)%string
                  = true) rows.
Proof.
  eexists. split; [reflexivity|]. split.
  - rewrite map_map. apply map_ext. now intros [c g].
  - apply sorted_map.
    apply (sorted_impl (fun a b => (fst a <? fst b)%string = true)).
    + now intros [c1 g1] [c2 g2].
    + apply (groupby_sorted Convenio df).
Qed.

Lemma dist_modalidade_rows (df : list ExamRecord) :
  exists rows,
    dist_modalidade df = sort_values_desc DistModalidade.Qtd rows /\
    map DistModalidade.Modalidade rows = map fst (groupby Modalidade df) /\
    StronglySorted
      (fun a b =>
         (DistModalidade.Modalidade a <? DistModalidade.Modalidade b)%string
         = true) rows.
Proof.
  eexists. split; [reflexivity|]. split.
  - rewrite map_map. apply map_ext. now intros [c g].
  - apply sorted_map.
    apply (sorted_impl (fun a b => (fst a <? fst b)%string = true)).
    + now intros [c1 g1] [c2 g2].
    + apply (groupby_sorted Modalidade df).
Qed.

Lemma sorted_desc_of_before {R : Type} (col : R -> Z) (key : R -> string)
  (l : list R) :
  StronglySorted
    (fun a b => col b < col a \/
                (col a = col b /\ (key a <? key b)%string = true)) l ->
  StronglySorted (fun a b => col b <= col a) l.
Proof.
  apply sorted_impl. intros a b [H|[H _]]; lia.
Qed.

(** C6, as amended: the rows of the payer distribution and of the
    modality distribution are in descending order of count, one row per
    payer, respectively per modality, that occurs in the records.
    Nothing is stated on the order of two groups of equal count: it is
    not the order in which the groups were first seen, which the
    group-by has replaced by the order of the keys before the sort
    runs. *)
Theorem distributions_sorted (df : list ExamRecord) :
  StronglySorted
    (fun a b => DistConvenio.Qtd b <= DistConvenio.Qtd a)
    (dist_convenio df) /\
  StronglySorted
    (fun a b => DistModalidade.Qtd b <= DistModalidade.Qtd a)
    (dist_modalidade df) /\
  NoDup (map DistConvenio.Convenio (dist_convenio df)) /\
  (forall c, In c (map DistConvenio.Convenio (dist_convenio df)) <->
             exists r, In r df /\ Convenio r = Some c) /\
  NoDup (map DistModalidade.Modalidade (dist_modalidade df)) /\
  (forall m, In m (map DistModalidade.Modalidade (dist_modalidade df)) <->
             exists r, In r df /\ Modalidade r = Some m).
Proof.
  destruct (dist_convenio_rows df) as (rc & Ec & Kc & Sc).
  destruct (dist_modalidade_rows df) as (rm & Em & Km & Sm).
  rewrite Ec, Em.
  assert (Pc : Permutation
                 (map DistConvenio.Convenio
                      (sort_values_desc DistConvenio.Qtd rc))
                 (map fst (groupby Convenio df))).
  { rewrite <- Kc. apply Permutation_map, sort_values_desc_perm. }
  assert (Pm : Permutation
                 (map DistModalidade.Modalidade
                      (sort_values_desc DistModalidade.Qtd rm))
                 (map fst (groupby Modalidade df))).
  { rewrite <- Km. apply Permutation_map, sort_values_desc_perm. }
  split; [|split; [|split; [|split; [|split]]]].
  - apply (sorted_desc_of_before DistConvenio.Qtd DistConvenio.Convenio).
    exact (sort_values_desc_sorted DistConvenio.Qtd DistConvenio.Convenio
             rc Sc).
  - apply (sorted_desc_of_before DistModalidade.Qtd
             DistModalidade.Modalidade).
    exact (sort_values_desc_sorted DistModalidade.Qtd
             DistModalidade.Modalidade rm Sm).
  - apply (Permutation_NoDup (Permutation_sym Pc)), groupby_keys_NoDup.
  - intros c. rewrite <- groupby_keys_In. split; apply Permutation_in;
      [exact Pc | exact (Permutation_sym Pc)].
  - apply (Permutation_NoDup (Permutation_sym Pm)), groupby_keys_NoDup.
  - intros m. rewrite <- groupby_keys_In. split; apply Permutation_in;
      [exact Pm | exact (Permutation_sym Pm)].
Qed.

(** The claim as first written fails on the tie-break.  Two payers with
    one exam each are seen in the order Beta, Alfa in one input and Alfa,
    Beta in the other.  The group-by hands the same two groups, in the
    same order, to the sort in both cases, so the distribution is the
    same for both inputs, whatever the sort does with the tie, and cannot
    follow the first-seen order of both.  The same holds for the two
    modalities. *)
Lemma tie_not_in_first_seen_order :
  let beta := Amostra.registro (Some "Ana") Amostra.jan15 (Some "Beta")
                (Some "RAIO X TORAX") (Some 100%Q) (Some 90%Q) in
  let alfa := Amostra.registro (Some "Bia") Amostra.jan20 (Some "Alfa")
                (Some "ULTRASSOM ABDOME") (Some 200%Q) (Some 180%Q) in
  map Convenio [beta; alfa] = [Some "Beta"; Some "Alfa"] /\
  map Convenio [alfa; beta] = [Some "Alfa"; Some "Beta"] /\
  groupby Convenio [beta; alfa] = groupby Convenio [alfa; beta] /\
  map DistConvenio.Qtd (dist_convenio [beta; alfa]) = [1; 1] /\
  dist_convenio [beta; alfa] = dist_convenio [alfa; beta] /\
  ~ (map DistConvenio.Convenio (dist_convenio [beta; alfa]) =
       ["Beta"; "Alfa"] /\
     map DistConvenio.Convenio (dist_convenio [alfa; beta]) =
       ["Alfa"; "Beta"]) /\
  map Modalidade [alfa; beta] = [Some "Ultrassonografia"; Some "Raio X"] /\
  map Modalidade [beta; alfa] = [Some "Raio X"; Some "Ultrassonografia"] /\
  groupby Modalidade [alfa; beta] = groupby Modalidade [beta; alfa] /\
  map DistModalidade.Qtd (dist_modalidade [alfa; beta]) = [1; 1] /\
  dist_modalidade [alfa; beta] = dist_modalidade [beta; alfa] /\
  ~ (map DistModalidade.Modalidade (dist_modalidade [alfa; beta]) =
       ["Ultrassonografia"; "Raio X"] /\
     map DistModalidade.Modalidade (dist_modalidade [beta; alfa]) =
       ["Raio X"; "Ultrassonografia"]).
Proof.
  vm_compute. repeat split; try (intros [H1 H2]; discriminate).
Qed.

End SortFacts.

(** ** The scenarios of the specification, evaluated *)

Module Cenarios.

Import Views.

Example classifier_samples :
  map Classifier.categorizar_modalidade
      [ Some "Ultrassom abdome total"; Some "rx de torax"; Some "Raio-X mao";
        Some "ecodoppler de carotidas"; Some "Densitometria ossea";
        Some "consulta"; Some "   "; Some ""; None ] =
  [ "Ultrassonografia"; "Raio X"; "Raio X"; "Doppler"; "Densitometria";
    "Outros"; "Outros"; "Outros"; "Outros" ].
Proof. reflexivity. Qed.

(** Two January exams of one payer: the month has 2 exams, gross 300, net
    270 and 90.00 per cent; each modality holds half of the exams. *)
Example two_records :
  Forall (fun na =>
    resumo_mensal na Amostra.cenario =
    [ {| Resumo.Mes := Some "2024-01";
         Resumo.Qtd_Exames := 2;
         Resumo.Receita_Bruta := 300;
         Resumo.Receita_Liquida := 270;
         Resumo.Percentual_Lucro := Num.Fin (9000 # 100) |} ] /\
    map (fun r => (DistModalidade.Modalidade r, DistModalidade.Qtd r,
                   DistModalidade.Percentual r))
        (dist_modalidade Amostra.cenario) =
    [ ("Raio X", 1, Num.Fin (5000 # 100));
      ("Ultrassonografia", 1, Num.Fin (5000 # 100)) ] /\
    Js.kpiLucro
      (Js.atualizarKPIs
         (Js.aplicarFiltros (agregar na "" Amostra.cenario) Js.sem_filtros)) =
    "90.00%")
  politicas.
Proof. repeat constructor. Qed.

(** A header row repeated in the middle of the table leaves no trace, and
    a text in a numeric column becomes a missing value.  Under the
    default [errors='raise'] the same cell would end the run. *)
Example repeated_header :
  let linha p v :=
    {| Normalizer.raw_Nome_Paciente := Some p;
       Normalizer.raw_Data_Realizacao := Normalizer.DateTime
         {| year := 2024; month := 1; day := 15 |};
       Normalizer.raw_Convenio := Some "InsCo";
       Normalizer.raw_Exame_Realizado := Some "RAIO X TORAX";
       Normalizer.raw_Valor_Exame := v;
       Normalizer.raw_Taxa_Cartao := Normalizer.Empty;
       Normalizer.raw_Percentual_SASE := Normalizer.Empty;
       Normalizer.raw_Percentual_Medico := Normalizer.Empty;
       Normalizer.raw_RDF := Normalizer.Number 90 |} in
  let registro p v :=
    {| Nome_Paciente := Some p;
       Data_Realizacao := Some {| year := 2024; month := 1; day := 15 |};
       Convenio := Some "InsCo";
       Exame_Realizado := Some "RAIO X TORAX";
       Valor_Exame := v;
       Taxa_Cartao := None;
       Percentual_SASE := None;
       Percentual_Medico := None;
       RDF := Some 90%Q |} in
  Normalizer.normalizar Normalizer.datetime_cell Normalizer.numeric_cell
    [ linha "Ana" (Normalizer.Number 100);
      linha "Nome do Paciente" (Normalizer.Text "Valor do Exame");
      linha "Bia" (Normalizer.Text "cem") ] =
  inr [ registro "Ana" (Some 100%Q); registro "Bia" None ] /\
  Normalizer.to_numeric Normalizer.numeric_cell Normalizer.Raise
    (Normalizer.Text "cem") =
  inl (Normalizer.ValueError (Normalizer.Text "cem")).
Proof. split; reflexivity. Qed.

End Cenarios.

(** ** Recomputing under a filter *)

Module RecomputeFacts.

Import Pandas SumFacts GroupFacts Views ViewFacts Js JsFacts Pagina.

Lemma filter_map_comm {A B : Type} (p : B -> bool) (f : A -> B) (l : list A) :
  filter p (map f l) = map f (filter (fun x => p (f x)) l).
Proof.
  induction l as [|a l IH]; cbn [map filter]; [reflexivity|].
  destruct (p (f a)); cbn [map]; now rewrite IH.
Qed.

Section FilteredGroups.

Context {R K : Type} `{Key K} (key : R -> option K) (P : K -> bool).

(** The test [P] on the key of a row; a row without a key fails it. *)
Let on_key (r : R) : bool :=
  match key r with
  | Some k => P k
  | None => false
  end.

Lemma groupby_filter_keys (df : list R) :
  filter (fun kg => P (fst kg)) (groupby key df) =
  map (fun k => (k, filter (has_key key k) df))
      (filter P (sort_keys (nodup key_eq_dec (keys_of key df)))).
Proof. unfold groupby. now rewrite filter_map_comm. Qed.

(** The groups whose key passes [P] hold the rows whose key passes [P]. *)
Lemma groupby_filtered_perm (df : list R) :
  Permutation
    (List.concat (map snd (filter (fun kg => P (fst kg)) (groupby key df))))
    (filter on_key df).
Proof.
  rewrite groupby_filter_keys, map_map. cbn [snd].
  rewrite concat_groups_perm.
  - erewrite filter_ext_in; [reflexivity|].
    intros r Hr. unfold on_key.
    destruct (key r) as [k|] eqn:Ek.
    + destruct (P k) eqn:Pk.
      * apply existsb_exists. exists k. split; [|now apply has_key_true].
        apply filter_In. split; [|exact Pk].
        rewrite <- groupby_keys. apply groupby_keys_In. now exists r.
      * destruct (existsb _ _) eqn:Ex; [|reflexivity].
        apply existsb_exists in Ex as (k' & Hk' & Hh).
        apply has_key_true in Hh. apply filter_In in Hk' as [_ Pk'].
        congruence.
    + destruct (existsb _ _) eqn:Ex; [|reflexivity].
      apply existsb_exists in Ex as (k' & _ & Hh).
      apply has_key_true in Hh. congruence.
  - apply NoDup_filter. rewrite <- groupby_keys. apply groupby_keys_NoDup.
Qed.

Lemma groupby_filtered_total_Z (f : R -> Z) (df : list R) :
  fold_left (fun acc kg => acc + fold_left (fun a r => a + f r) (snd kg) 0)
            (filter (fun kg => P (fst kg)) (groupby key df)) 0 =
  fold_left (fun a r => a + f r) (filter on_key df) 0.
Proof.
  rewrite (foldZ_concat f snd). apply foldZ_perm, groupby_filtered_perm.
Qed.

Lemma groupby_filtered_total_Q (f : R -> Q) (df : list R) :
  (fold_left (fun acc kg => acc + fold_left (fun a r => a + f r) (snd kg) 0)
             (filter (fun kg => P (fst kg)) (groupby key df)) 0 ==
   fold_left (fun a r => a + f r) (filter on_key df) 0)%Q.
Proof.
  rewrite (foldQ_concat f snd). apply foldQ_perm, groupby_filtered_perm.
Qed.

End FilteredGroups.

Section Policy.

Variable na : na_policy.

(** The filtered view, group by group. *)
Lemma exames_filtrados (agora : string) (df : list ExamRecord) (f : Filtros) :
  Data.exames_mes_convenio_modalidade
    (aplicarFiltros (agregar na agora df) f) =
  map (fun kg : string * string * string * list ExamRecord =>
         {| Fine.Mes := Some (fst (fst (fst kg)));
            Fine.Convenio := snd (fst (fst kg));
            Fine.Modalidade := snd (fst kg);
            Fine.Qtd := count Nome_Paciente (snd kg);
            Fine.Receita_Bruta := sum Valor_Exame (snd kg);
            Fine.Receita_Liquida := sum RDF (snd kg) |})
      (filter (fun kg => chave_passa f (fst kg))
              (groupby (by_mes_convenio_modalidade na) df)).
Proof.
  rewrite aplicarFiltros_filter.
  cbn [agregar Data.exames_mes_convenio_modalidade].
  rewrite (exames_rows na), filter_map_comm.
  f_equal. apply filter_ext. intros [[[m c] md] g].
  cbn [Fine.Convenio Fine.Mes Fine.Modalidade fst snd chave_passa mes_igual].
  reflexivity.
Qed.

Lemma kpi_qtd_filtrado (agora : string) (df : list ExamRecord) (f : Filtros) :
  qtd (atualizarKPIs (aplicarFiltros (agregar na agora df) f)) =
  count Nome_Paciente (filter (registro_passa na f) df).
Proof.
  unfold atualizarKPIs; cbn [qtd]. rewrite exames_filtrados, foldZ_map.
  cbn [Fine.Qtd].
  rewrite (foldZ_ext _ _ _ _ (fun kg => count_fold Nome_Paciente (snd kg))).
  rewrite (groupby_filtered_total_Z (by_mes_convenio_modalidade na)
             (chave_passa f)).
  now rewrite count_fold.
Qed.

(** With the controls cleared every record that has a month key and a
    payer is selected. *)
Lemma registro_passa_sem_filtros (r : ExamRecord) :
  registro_passa na sem_filtros r = notna (by_mes_convenio_modalidade na r).
Proof.
  unfold registro_passa.
  now destruct (by_mes_convenio_modalidade na r) as [[[m c] md]|].
Qed.

End Policy.

Section Months.

Variable na : na_policy.

Lemma dist_modalidade_mes_rows (df : list ExamRecord) :
  dist_modalidade_mes na df =
  map (fun kg : string * string * list ExamRecord =>
         {| DistModalidadeMes.Mes := Some (fst (fst kg));
            DistModalidadeMes.Modalidade := snd (fst kg);
            DistModalidadeMes.Qtd := count Nome_Paciente (snd kg) |})
      (groupby (by_mes_modalidade na) df).
Proof.
  unfold dist_modalidade_mes.
  rewrite forallb_filter_id.
  - apply map_ext. now intros [[m md] g].
  - apply forallb_forall. intros x Hx.
    apply in_map_iff in Hx as ([[m md] g] & <- & _). reflexivity.
Qed.

(** X2: month by month the three month-keyed views agree with the
    records.  For every month [m], the exam count of the monthly summary
    and the counts of the modality-by-month view, added over the
    modalities, are both the number of patient cells among the records of
    [m]; the gross sum of the monthly summary is the sum of their gross
    values; and the counts of the fine-grained rows of [m] add up to the
    number of patient cells among the records of [m] that have a payer. *)
Theorem month_views_agree (df : list ExamRecord) (m : string) :
  sum_int Resumo.Qtd_Exames
    (filter (fun x => mes_igual (Resumo.Mes x) m) (resumo_mensal na df)) =
  count Nome_Paciente (filter (no_mes na m) df) /\
  sum_int DistModalidadeMes.Qtd
    (filter (fun x => mes_igual (DistModalidadeMes.Mes x) m)
            (dist_modalidade_mes na df)) =
  count Nome_Paciente (filter (no_mes na m) df) /\
  (fold_left (fun acc x => acc + Resumo.Receita_Bruta x)
     (filter (fun x => mes_igual (Resumo.Mes x) m) (resumo_mensal na df)) 0 ==
   sum Valor_Exame (filter (no_mes na m) df))%Q /\
  sum_int Fine.Qtd
    (filter (fun x => mes_igual (Fine.Mes x) m)
            (exames_mes_convenio_modalidade na df)) =
  count Nome_Paciente
    (filter (fun r => no_mes na m r && notna (Convenio r)) df).
Proof.
  split; [|split; [|split]].
  - rewrite (resumo_rows na), filter_map_comm. unfold sum_int.
    rewrite foldZ_map. cbn [Resumo.Qtd_Exames Resumo.Mes mes_igual].
    rewrite (foldZ_ext _ _ _ _ (fun kg => count_fold Nome_Paciente (snd kg))).
    rewrite (groupby_filtered_total_Z (Ano_Mes na)
               (fun k => (k =? m)%string)).
    now rewrite count_fold.
  - rewrite dist_modalidade_mes_rows, filter_map_comm. unfold sum_int.
    rewrite foldZ_map.
    cbn [DistModalidadeMes.Qtd DistModalidadeMes.Mes mes_igual].
    rewrite (foldZ_ext _ _ _ _ (fun kg => count_fold Nome_Paciente (snd kg))).
    rewrite (groupby_filtered_total_Z (by_mes_modalidade na)
               (fun k => (fst k =? m)%string)).
    rewrite count_fold. f_equal. apply filter_ext. intros r.
    unfold no_mes, by_mes_modalidade, Modalidade.
    now destruct (Ano_Mes na r).
  - rewrite (resumo_rows na), filter_map_comm, foldQ_map.
    cbn [Resumo.Receita_Bruta Resumo.Mes mes_igual]. unfold sum.
    now rewrite (groupby_filtered_total_Q (Ano_Mes na)
                   (fun k => (k =? m)%string)
                   (fun r => Num.nan0 (Valor_Exame r))).
  - rewrite (exames_rows na), filter_map_comm. unfold sum_int.
    rewrite foldZ_map. cbn [Fine.Qtd Fine.Mes mes_igual].
    rewrite (foldZ_ext _ _ _ _ (fun kg => count_fold Nome_Paciente (snd kg))).
    rewrite (groupby_filtered_total_Z (by_mes_convenio_modalidade na)
               (fun k => (fst (fst k) =? m)%string)).
    rewrite count_fold. f_equal. apply filter_ext. intros r.
    unfold no_mes, by_mes_convenio_modalidade, Modalidade.
    destruct (Ano_Mes na r), (Convenio r); cbn [notna fst];
      rewrite ?andb_true_r, ?andb_false_r; reflexivity.
Qed.

End Months.

End RecomputeFacts.

(** ** Order of the month-keyed views *)

Module OrderFacts.

Import Pandas GroupFacts Views ViewFacts SortFacts Ordem.

Lemma string_leb_cases (a b : string) :
  (a <=? b)%string = true <-> a = b \/ (a <? b)%string = true.
Proof.
  unfold String.leb, String.ltb. split.
  - destruct (a ?= b)%string eqn:E; try discriminate; intros _.
    + left. now apply String.compare_eq_iff.
    + now right.
  - intros [->|H].
    + destruct (b ?= b)%string eqn:E; try reflexivity.
      pose proof (String.compare_antisym b b) as Ha. rewrite E in Ha.
      discriminate.
    + destruct (a ?= b)%string; try discriminate; reflexivity.
Qed.

#[export] Instance KeyLaws_string : KeyLaws string.
Proof.
  split; cbn [key_leb Key_string].
  - apply String.leb_total.
  - intros a b c Hab Hbc. apply string_leb_cases in Hab, Hbc.
    apply string_leb_cases.
    destruct Hab as [->|Hab]; [exact Hbc|].
    destruct Hbc as [<-|Hbc]; [now right|].
    right. exact (ltb_trans a b c Hab Hbc).
  - apply String.leb_antisym.
Qed.

#[export] Instance KeyLaws_prod {A B : Type} `{KeyLaws A} `{KeyLaws B} :
  KeyLaws (A * B).
Proof.
  split; cbn [key_leb Key_prod].
  - intros [a1 b1] [a2 b2]. cbn [fst snd].
    destruct (key_eq_dec a1 a2) as [->|n].
    + destruct (key_eq_dec a2 a2) as [_|n']; [|now elim n'].
      apply key_leb_total.
    + destruct (key_eq_dec a2 a1) as [e|_]; [now elim n|].
      apply key_leb_total.
  - intros [a1 b1] [a2 b2] [a3 b3]. cbn [fst snd].
    destruct (key_eq_dec a1 a2) as [->|n12],
             (key_eq_dec a2 a3) as [->|n23]; intros H12 H23.
    + destruct (key_eq_dec a3 a3) as [_|n']; [|now elim n'].
      exact (key_leb_trans _ _ _ H12 H23).
    + destruct (key_eq_dec a2 a3) as [e|_]; [now elim n23 | exact H23].
    + destruct (key_eq_dec a1 a3) as [e|_]; [now elim n12 | exact H12].
    + destruct (key_eq_dec a1 a3) as [->|_].
      * elim n12. exact (key_leb_antisym _ _ H12 H23).
      * exact (key_leb_trans _ _ _ H12 H23).
  - intros [a1 b1] [a2 b2]. cbn [fst snd].
    destruct (key_eq_dec a1 a2) as [->|n].
    + destruct (key_eq_dec a2 a2) as [_|n']; [|now elim n'].
      intros L1 L2. f_equal. exact (key_leb_antisym _ _ L1 L2).
    + destruct (key_eq_dec a2 a1) as [e|_]; [now elim n|].
      intros L1 L2. elim n. exact (key_leb_antisym _ _ L1 L2).
Qed.

Section Laws.

Context {K : Type} `{KeyLaws K}.

Lemma key_lt_trans (a b c : K) : key_lt a b -> key_lt b c -> key_lt a c.
Proof.
  intros [Hab Nab] [Hbc Nbc]. split.
  - exact (key_leb_trans _ _ _ Hab Hbc).
  - intros ->. apply Nab. exact (key_leb_antisym _ _ Hab Hbc).
Qed.

Lemma insert_key_lt_sorted (k : K) (l : list K) :
  StronglySorted key_lt l -> ~ In k l ->
  StronglySorted key_lt (insert_key k l).
Proof.
  induction 1 as [|x l Hs IH Hx]; intros Hnin; cbn [insert_key].
  - repeat constructor.
  - destruct (key_leb k x) eqn:E.
    + assert (Hkx : key_lt k x).
      { split; [exact E|]. intros ->. apply Hnin. now left. }
      constructor; [now constructor|]. constructor; [exact Hkx|].
      apply Forall_forall. intros z Hz. apply (key_lt_trans k x z Hkx).
      rewrite Forall_forall in Hx. exact (Hx z Hz).
    + constructor.
      * apply IH. intros Hin. apply Hnin. now right.
      * apply Forall_forall. intros z Hz.
        apply (Permutation_in z (insert_key_perm k l)) in Hz.
        destruct Hz as [<-|Hz].
        -- split.
           ++ destruct (key_leb_total k x) as [T|T]; [congruence | exact T].
           ++ intros ->. apply Hnin. now left.
        -- rewrite Forall_forall in Hx. exact (Hx z Hz).
Qed.

Lemma sort_keys_lt_sorted (l : list K) :
  NoDup l -> StronglySorted key_lt (sort_keys l).
Proof.
  induction 1 as [|k l Hnin Hnd IH]; cbn [sort_keys fold_right].
  - constructor.
  - apply insert_key_lt_sorted; [exact IH|].
    intros Hin. apply Hnin.
    exact (Permutation_in k (sort_keys_perm l) Hin).
Qed.

(** The groups of a group-by come out in strictly ascending key order. *)
Lemma groupby_lt_sorted {R : Type} (key : R -> option K) (df : list R) :
  StronglySorted (fun a b => key_lt (fst a) (fst b)) (groupby key df).
Proof.
  apply (sorted_of_map fst key_lt).
  rewrite groupby_keys. apply sort_keys_lt_sorted, NoDup_nodup.
Qed.

End Laws.

Lemma sorted_filter {A : Type} (P : A -> A -> Prop) (p : A -> bool)
  (l : list A) :
  StronglySorted P l -> StronglySorted P (filter p l).
Proof.
  induction 1 as [|x l Hs IH Hx]; cbn [filter]; [constructor|].
  destruct (p x); [|exact IH]. constructor; [exact IH|].
  apply Forall_forall. intros z Hz. apply filter_In in Hz as [Hz _].
  rewrite Forall_forall in Hx. exact (Hx z Hz).
Qed.

Lemma sorted_snoc {A : Type} (P : A -> A -> Prop) (l : list A) (k : A) :
  StronglySorted P l -> Forall (fun y => P y k) l ->
  StronglySorted P (l ++ [k]).
Proof.
  induction 1 as [|x l Hs IH Hx]; intros Hk; cbn [app].
  - repeat constructor.
  - inversion Hk as [|? ? Hxk Hk']; subst. constructor; [exact (IH Hk')|].
    apply Forall_forall. intros z Hz. apply in_app_or in Hz as [Hz|[<-|[]]].
    + rewrite Forall_forall in Hx. exact (Hx z Hz).
    + exact Hxk.
Qed.

(** Strictly before, for the two tuple keys, written out. *)
Lemma key_lt_string (a b : string) :
  key_lt a b <-> (a <? b)%string = true.
Proof.
  unfold key_lt. cbn [key_leb Key_string]. rewrite string_leb_cases. split.
  - intros [[->|H] N]; [now elim N | exact H].
  - intros H. split; [now right|]. intros ->.
    rewrite ltb_irrefl in H. discriminate.
Qed.

Lemma key_lt_pair {A B : Type} `{Key A} `{Key B} (a1 a2 : A) (b1 b2 : B) :
  key_lt (a1, b1) (a2, b2) <->
  key_lt a1 a2 \/ (a1 = a2 /\ key_lt b1 b2).
Proof.
  unfold key_lt. cbn [key_leb Key_prod fst snd].
  destruct (key_eq_dec a1 a2) as [->|n]; split.
  - intros [L N]. right. split; [reflexivity|]. split; [exact L|].
    intros ->. now apply N.
  - intros [[_ N]|[_ [L N]]]; [now elim N|]. split; [exact L|].
    intros E. inversion E. now apply N.
  - intros [L _]. left. now split.
  - intros [[L _]|[E _]]; [|now elim n]. split; [exact L|].
    intros E. inversion E. now apply n.
Qed.

Section Policy.

Variable na : na_policy.

Lemma exames_sorted (df : list ExamRecord) :
  StronglySorted
    (fun a b =>
       (Js.chave (Fine.Mes a) <? Js.chave (Fine.Mes b))%string = true \/
       (Js.chave (Fine.Mes a) = Js.chave (Fine.Mes b) /\
        ((Fine.Convenio a <? Fine.Convenio b)%string = true \/
         (Fine.Convenio a = Fine.Convenio b /\
          (Fine.Modalidade a <? Fine.Modalidade b)%string = true))))
    (exames_mes_convenio_modalidade na df).
Proof.
  rewrite (exames_rows na). apply sorted_map.
  apply (sorted_impl (fun a b => key_lt (fst a) (fst b))).
  - intros [[[m1 c1] d1] g1] [[[m2 c2] d2] g2].
    cbn [Fine.Mes Fine.Convenio Fine.Modalidade Js.chave fst snd].
    rewrite !key_lt_pair, !key_lt_string. intuition congruence.
  - apply groupby_lt_sorted.
Qed.

(** X3: the three month-keyed views list their groups in strictly
    ascending key order, so no key occurs twice: the monthly summary by
    month, the fine-grained view by month, then payer, then modality, and
    the modality-by-month view by month, then modality.  Every row
    carries a month that is not null. *)
Theorem month_views_sorted (df : list ExamRecord) :
  StronglySorted
    (fun a b => (Js.chave (Resumo.Mes a) <? Js.chave (Resumo.Mes b))%string
                = true)
    (resumo_mensal na df) /\
  StronglySorted
    (fun a b =>
       (Js.chave (Fine.Mes a) <? Js.chave (Fine.Mes b))%string = true \/
       (Js.chave (Fine.Mes a) = Js.chave (Fine.Mes b) /\
        ((Fine.Convenio a <? Fine.Convenio b)%string = true \/
         (Fine.Convenio a = Fine.Convenio b /\
          (Fine.Modalidade a <? Fine.Modalidade b)%string = true))))
    (exames_mes_convenio_modalidade na df) /\
  StronglySorted
    (fun a b =>
       (Js.chave (DistModalidadeMes.Mes a) <?
        Js.chave (DistModalidadeMes.Mes b))%string = true \/
       (Js.chave (DistModalidadeMes.Mes a) =
        Js.chave (DistModalidadeMes.Mes b) /\
        (DistModalidadeMes.Modalidade a <?
         DistModalidadeMes.Modalidade b)%string = true))
    (dist_modalidade_mes na df) /\
  Forall (fun x => Resumo.Mes x <> None) (resumo_mensal na df) /\
  Forall (fun x => Fine.Mes x <> None)
         (exames_mes_convenio_modalidade na df) /\
  Forall (fun x => DistModalidadeMes.Mes x <> None)
         (dist_modalidade_mes na df).
Proof.
  split; [|split; [|split; [|split; [|split]]]].
  - rewrite (resumo_rows na). apply sorted_map.
    apply (sorted_impl (fun a b => key_lt (fst a) (fst b))).
    + intros [m1 g1] [m2 g2]. cbn [Resumo.Mes Js.chave fst].
      apply key_lt_string.
    + apply groupby_lt_sorted.
  - apply exames_sorted.
  - rewrite RecomputeFacts.dist_modalidade_mes_rows. apply sorted_map.
    apply (sorted_impl (fun a b => key_lt (fst a) (fst b))).
    + intros [[m1 d1] g1] [[m2 d2] g2].
      cbn [DistModalidadeMes.Mes DistModalidadeMes.Modalidade Js.chave
           fst snd].
      rewrite key_lt_pair, !key_lt_string. intuition congruence.
    + apply groupby_lt_sorted.
  - rewrite (resumo_rows na). apply Forall_forall. intros x Hx.
    apply in_map_iff in Hx as (kg & <- & _). discriminate.
  - rewrite (exames_rows na). apply Forall_forall. intros x Hx.
    apply in_map_iff in Hx as (kg & <- & _). discriminate.
  - rewrite RecomputeFacts.dist_modalidade_mes_rows. apply Forall_forall.
    intros x Hx. apply in_map_iff in Hx as (kg & <- & _). discriminate.
Qed.

End Policy.

(** *** The labels of the chart of exams per month *)

Lemma keys_somar_em_old (o : list (string * Z)) (k : string) (q : Z) :
  In k (map fst o) -> map fst (Js.somar_em o k q) = map fst o.
Proof.
  induction o as [|[k0 v] o IH]; cbn [Js.somar_em map fst In].
  - intros [].
  - intros Hin. destruct (k0 =? k)%string eqn:E; cbn [map fst].
    + reflexivity.
    + f_equal. apply IH. destruct Hin as [->|Hin]; [|exact Hin].
      now rewrite String.eqb_refl in E.
Qed.

Lemma keys_somar_em_new (o : list (string * Z)) (k : string) (q : Z) :
  ~ In k (map fst o) ->
  map fst (Js.somar_em o k q) = (map fst o ++ [k])%list.
Proof.
  induction o as [|[k0 v] o IH]; cbn [Js.somar_em map fst In app].
  - reflexivity.
  - intros Hnin. destruct (k0 =? k)%string eqn:E; cbn [map fst].
    + apply String.eqb_eq in E. elim Hnin. now left.
    + f_equal. apply IH. intros Hin. apply Hnin. now right.
Qed.

Section Labels.

Context {R : Type} (key : R -> string) (qtd : R -> Z).

(** Rows that arrive in ascending key order leave their keys in the
    object in strictly ascending order. *)
Lemma labels_sorted (l : list R) (o : list (string * Z)) :
  StronglySorted (fun a b => (key a <=? key b)%string = true) l ->
  StronglySorted (fun a b => (a <? b)%string = true) (map fst o) ->
  (forall k x, In k (map fst o) -> In x l -> (k <=? key x)%string = true) ->
  StronglySorted (fun a b => (a <? b)%string = true)
    (map fst (fold_left (fun o x => Js.somar_em o (key x) (qtd x)) l o)).
Proof.
  intros Hl. revert o.
  induction Hl as [|x l Hs IH Hx]; intros o Ho Hb; cbn [fold_left].
  - exact Ho.
  - rewrite Forall_forall in Hx.
    destruct (in_dec string_dec (key x) (map fst o)) as [Hin|Hnin].
    + apply IH.
      * now rewrite keys_somar_em_old.
      * rewrite keys_somar_em_old by exact Hin.
        intros k y Hk Hy. apply Hb; [exact Hk | now right].
    + apply IH.
      * rewrite keys_somar_em_new by exact Hnin. apply sorted_snoc.
        -- exact Ho.
        -- apply Forall_forall. intros k Hk. apply leb_neq_ltb.
           ++ apply Hb; [exact Hk | now left].
           ++ intros ->. contradiction.
      * rewrite keys_somar_em_new by exact Hnin.
        intros k y Hk Hy. apply in_app_or in Hk as [Hk|[<-|[]]].
        -- apply Hb; [exact Hk | now right].
        -- exact (Hx y Hy).
Qed.

End Labels.

Section ChartPolicy.

Variable na : na_policy.

(** X4: whatever the filter, the chart of exams per month of a snapshot
    built by the aggregation lists its months in strictly ascending
    order of their text, each month once. *)
Theorem chartMes_labels_ascending (agora : string) (df : list ExamRecord)
  (f : Js.Filtros) :
  StronglySorted (fun a b => (a <? b)%string = true)
    (Js.labels
       (Js.chartMes
          (Js.atualizarGraficos (agregar na agora df)
             (Js.aplicarFiltros (agregar na agora df) f)))).
Proof.
  cbn [Js.atualizarGraficos Js.chartMes Js.labels]. unfold Js.examesPosMes.
  apply labels_sorted.
  - rewrite JsFacts.aplicarFiltros_filter. apply sorted_filter.
    cbn [agregar Data.exames_mes_convenio_modalidade].
    refine (sorted_impl _ _ _ _ (exames_sorted na df)).
    intros a b [Hab|[E _]]; apply string_leb_cases; [now right | now left].
  - constructor.
  - intros k x [].
Qed.

End ChartPolicy.

(** *** Month keys and the calendar *)

Lemma digit_compare (a b : Z) :
  Ascii.compare (digit a) (digit b) = (a mod 10 ?= b mod 10).
Proof.
  unfold digit.
  assert (Ha : 0 <= a mod 10 < 10) by (apply Z.mod_pos_bound; lia).
  assert (Hb : 0 <= b mod 10 < 10) by (apply Z.mod_pos_bound; lia).
  generalize dependent (b mod 10). generalize dependent (a mod 10).
  intros x Hx y Hy.
  assert (Ex : x = 0 \/ x = 1 \/ x = 2 \/ x = 3 \/ x = 4 \/ x = 5 \/
               x = 6 \/ x = 7 \/ x = 8 \/ x = 9) by lia.
  assert (Ey : y = 0 \/ y = 1 \/ y = 2 \/ y = 3 \/ y = 4 \/ y = 5 \/
               y = 6 \/ y = 7 \/ y = 8 \/ y = 9) by lia.
  repeat (destruct Ex as [->|Ex]); try subst x;
    repeat (destruct Ey as [->|Ey]); try subst y; reflexivity.
Qed.

(** X5: for dates whose year has at most four digits (every
    [datetime64[ns]] date has) the text order of the month keys is the
    order of the calendar: one key is before another exactly when its
    year is earlier, or the year is the same and its month is earlier. *)
Theorem month_key_order_is_calendar_order (na : na_policy)
  (t1 t2 : Timestamp) (k1 k2 : string) :
  0 <= year t1 < 10000 -> 0 <= year t2 < 10000 ->
  0 <= month t1 < 100 -> 0 <= month t2 < 100 ->
  period_str na (Some t1) = Some k1 ->
  period_str na (Some t2) = Some k2 ->
  ((k1 <? k2)%string = true <->
   year t1 < year t2 \/ (year t1 = year t2 /\ month t1 < month t2)).
Proof.
  intros Hy1 Hy2 Hm1 Hm2 E1 E2. cbn [period_str] in E1, E2.
  inversion E1; inversion E2; subst k1 k2. clear E1 E2.
  unfold String.ltb, pad4, pad2.
  cbn [String.append String.compare].
  rewrite !digit_compare.
  change (Ascii.compare "-" "-") with Eq.
  destruct (Z.compare_spec ((year t1 / 1000) mod 10) ((year t2 / 1000) mod 10));
  [destruct (Z.compare_spec ((year t1 / 100) mod 10) ((year t2 / 100) mod 10));
   [destruct (Z.compare_spec ((year t1 / 10) mod 10) ((year t2 / 10) mod 10));
    [destruct (Z.compare_spec (year t1 mod 10) (year t2 mod 10));
     [destruct (Z.compare_spec ((month t1 / 10) mod 10) ((month t2 / 10) mod 10));
      [destruct (Z.compare_spec (month t1 mod 10) (month t2 mod 10))
      | | ] | | ] | | ] | | ] | | ];
  (split; [intros Hc; try discriminate Hc | intros Hc; try reflexivity]);
  Z.to_euclidean_division_equations; lia.
Qed.

(** X5 at December 2023 and January 2024. *)
Lemma month_key_order_is_calendar_order_virada :
  let t1 := {| year := 2023; month := 12; day := 31 |} in
  let t2 := {| year := 2024; month := 1; day := 15 |} in
  (0 <= year t1 < 10000 /\ 0 <= year t2 < 10000 /\
   0 <= month t1 < 100 /\ 0 <= month t2 < 100) /\
  period_str NaKept (Some t1) = Some "2023-12"%string /\
  period_str NaKept (Some t2) = Some "2024-01"%string /\
  (("2023-12" <? "2024-01")%string = true <->
   year t1 < year t2 \/ (year t1 = year t2 /\ month t1 < month t2)).
Proof.
  intros t1 t2.
  assert (Hy1 : 0 <= year t1 < 10000) by (cbn; lia).
  assert (Hy2 : 0 <= year t2 < 10000) by (cbn; lia).
  assert (Hm1 : 0 <= month t1 < 100) by (cbn; lia).
  assert (Hm2 : 0 <= month t2 < 100) by (cbn; lia).
  assert (E1 : period_str NaKept (Some t1) = Some "2023-12"%string)
    by reflexivity.
  assert (E2 : period_str NaKept (Some t2) = Some "2024-01"%string)
    by reflexivity.
  split; [repeat split; lia|]. split; [exact E1|]. split; [exact E2|].
  exact (month_key_order_is_calendar_order NaKept t1 t2 _ _
           Hy1 Hy2 Hm1 Hm2 E1 E2).
Defined.

End OrderFacts.

(** ** A filter and the snapshot of the records it selects *)

Module SubframeFacts.

Import Pandas SumFacts GroupFacts Views ViewFacts Js JsFacts Pagina Ordem.
Import OrderFacts RecomputeFacts.

Section Subframe.

Context {R K : Type} `{KeyLaws K} (key : R -> option K) (P : K -> bool).

Lemma key_lt_irrefl (a : K) : ~ key_lt a a.
Proof. intros [_ N]. now apply N. Qed.

(** Two strictly ascending lists with the same elements are equal. *)
Lemma sorted_unique (l1 l2 : list K) :
  StronglySorted key_lt l1 -> StronglySorted key_lt l2 ->
  (forall x, In x l1 <-> In x l2) -> l1 = l2.
Proof.
  intros S1. revert l2. induction S1 as [|a l1 S1 IH H1]; intros l2 S2 Hin.
  - destruct l2 as [|b l2]; [reflexivity|].
    destruct (proj2 (Hin b) (or_introl eq_refl)).
  - destruct S2 as [|b l2 S2 H2].
    + destruct (proj1 (Hin a) (or_introl eq_refl)).
    + rewrite Forall_forall in H1, H2.
      assert (E : a = b).
      { destruct (proj1 (Hin a) (or_introl eq_refl)) as [E|Ha];
          [now symmetry|].
        destruct (proj2 (Hin b) (or_introl eq_refl)) as [E|Hb];
          [exact E|].
        elim (key_lt_irrefl a).
        exact (key_lt_trans a b a (H1 b Hb) (H2 a Ha)). }
      subst b. f_equal. apply IH; [exact S2|].
      intros x. split; intros Hx.
      * destruct (proj1 (Hin x) (or_intror Hx)) as [<-|Hx']; [|exact Hx'].
        elim (key_lt_irrefl a). exact (H1 a Hx).
      * destruct (proj2 (Hin x) (or_intror Hx)) as [<-|Hx']; [|exact Hx'].
        elim (key_lt_irrefl a). exact (H2 a Hx).
Qed.

(** The groups of the rows whose key passes [P] are the groups of the
    frame whose key passes [P]: the same keys in the same order, each
    with the same rows in the same order. *)
Lemma groupby_subframe (df : list R) :
  groupby key (filter (fun r => match key r with
                                | Some k => P k
                                | None => false
                                end) df) =
  filter (fun kg => P (fst kg)) (groupby key df).
Proof.
  set (on_key := fun r => match key r with
                          | Some k => P k
                          | None => false
                          end).
  rewrite (groupby_filter_keys key P). unfold groupby.
  assert (Ek : sort_keys (nodup key_eq_dec (keys_of key (filter on_key df))) =
               filter P (sort_keys (nodup key_eq_dec (keys_of key df)))).
  { apply sorted_unique.
    - apply sort_keys_lt_sorted, NoDup_nodup.
    - apply sorted_filter, sort_keys_lt_sorted, NoDup_nodup.
    - intros k. rewrite filter_In.
      rewrite <- !(groupby_keys key), !groupby_keys_In. split.
      + intros (r & Hr & Hk). apply filter_In in Hr as [Hr Hp].
        unfold on_key in Hp. rewrite Hk in Hp.
        split; [now exists r | exact Hp].
      + intros [(r & Hr & Hk) Hp]. exists r. split; [|exact Hk].
        apply filter_In. split; [exact Hr|].
        unfold on_key. now rewrite Hk. }
  rewrite Ek. apply map_ext_in. intros k Hk.
  apply filter_In in Hk as [_ Hp]. f_equal.
  rewrite filter_filter. apply filter_ext. intros r.
  destruct (has_key key k r) eqn:Eh; [|apply andb_false_r].
  apply has_key_true in Eh. unfold on_key. rewrite Eh, Hp. reflexivity.
Qed.

End Subframe.

(** X1: the table shown under a filter is, row for row, the table an
    unfiltered page shows for a snapshot aggregated from the records the
    filter selects (the records with a month key and a payer whose
    payer, month and modality pass the controls): the same groups in the
    same order, each computed from the same records in the same order.
    So the KPIs are the same on both pages, and the exam count is the
    number of patient cells among the selected records. *)
Theorem recompute_equals_matching_records (na : na_policy) (agora : string)
  (df : list ExamRecord) (f : Filtros) :
  Data.exames_mes_convenio_modalidade
    (aplicarFiltros (agregar na agora df) f) =
  Data.exames_mes_convenio_modalidade
    (aplicarFiltros (agregar na agora (filter (registro_passa na f) df))
                    sem_filtros) /\
  atualizarKPIs (aplicarFiltros (agregar na agora df) f) =
  atualizarKPIs
    (aplicarFiltros (agregar na agora (filter (registro_passa na f) df))
                    sem_filtros) /\
  qtd (atualizarKPIs (aplicarFiltros (agregar na agora df) f)) =
  count Nome_Paciente (filter (registro_passa na f) df).
Proof.
  assert (E : Data.exames_mes_convenio_modalidade
                (aplicarFiltros (agregar na agora df) f) =
              Data.exames_mes_convenio_modalidade
                (aplicarFiltros
                   (agregar na agora (filter (registro_passa na f) df))
                   sem_filtros)).
  { rewrite !(exames_filtrados na). f_equal.
    rewrite (filter_all (fun kg => chave_passa sem_filtros (fst kg)))
      by (now intros [[[m c] md] g] _).
    symmetry.
    exact (groupby_subframe (by_mes_convenio_modalidade na) (chave_passa f)
             df). }
  split; [exact E|]. split.
  - unfold atualizarKPIs. now rewrite E.
  - apply kpi_qtd_filtrado.
Qed.

End SubframeFacts.

(** ** Percentages of the two distributions *)

Module DistFacts.

Import Pandas SumFacts GroupFacts Views ViewFacts SortFacts.

Local Open Scope Q_scope.

(** The share of a count in a total that is not 0. *)
Lemma percentual_finite (q t : Z) :
  t <> 0%Z ->
  percentual q t =
  Num.Fin (inject_Z (Num.rint (inject_Z q / inject_Z t * 100 * 100)) / 100).
Proof.
  intros Ht. unfold percentual, Num.fdiv.
  destruct (Qeq_bool (inject_Z t) 0) eqn:E; [|reflexivity].
  apply Qeq_bool_eq in E. unfold Qeq in E. cbn in E. lia.
Qed.

Lemma share_bounds (q t : Z) :
  (0 <= q <= t)%Z -> (0 < t)%Z ->
  0 <= inject_Z q / inject_Z t /\ inject_Z q / inject_Z t <= 1.
Proof.
  intros Hq Ht.
  assert (Hpos : 0 < inject_Z t) by (unfold Qlt; cbn; lia).
  split.
  - apply Qle_shift_div_l; [exact Hpos|]. unfold Qle; cbn; lia.
  - apply Qle_shift_div_r; [exact Hpos|]. rewrite Qmult_1_l.
    rewrite <- Zle_Qle. lia.
Qed.

Lemma rint_range (y : Q) (lo hi : Z) :
  inject_Z lo <= y -> y <= inject_Z hi ->
  (lo <= Num.rint y <= hi)%Z.
Proof.
  intros Hlo Hhi. destruct (rint_spec y) as (H1 & H2 & _).
  assert (A : inject_Z lo <= inject_Z (Num.rint y) + (1 # 2)) by lra.
  assert (B : inject_Z (Num.rint y) - (1 # 2) <= inject_Z hi) by lra.
  unfold Qle in A, B. cbn in A, B. lia.
Qed.

Lemma sum_shares (t : Q) (qs : list Z) :
  fold_left (fun acc q => acc + inject_Z q / t) qs 0 ==
  inject_Z (fold_left (fun acc q => (acc + q)%Z) qs 0%Z) / t.
Proof.
  induction qs as [|q qs IH].
  - cbn. unfold Qdiv. ring.
  - rewrite foldQ_cons, (foldZ_cons (fun q => q)), IH, inject_Z_plus.
    unfold Qdiv. ring.
Qed.

(** Rounded shares add up to 100 within half a hundredth per share. *)
Lemma sum_rounded_shares (t : Q) (qs : list Z) :
  let pct q := inject_Z (Num.rint (inject_Z q / t * 100 * 100)) / 100 in
  fold_left (fun acc q => acc + inject_Z q / t) qs 0 * 100 -
  inject_Z (Z.of_nat (List.length qs)) * (1 # 200) <=
  fold_left (fun acc q => acc + pct q) qs 0 /\
  fold_left (fun acc q => acc + pct q) qs 0 <=
  fold_left (fun acc q => acc + inject_Z q / t) qs 0 * 100 +
  inject_Z (Z.of_nat (List.length qs)) * (1 # 200).
Proof.
  intros pct. induction qs as [|q qs IH].
  - cbn. change (inject_Z 0) with 0. split; lra.
  - rewrite !foldQ_cons. cbn [List.length].
    rewrite Nat2Z.inj_succ, <- Z.add_1_r, inject_Z_plus.
    change (inject_Z 1) with 1.
    unfold pct at 1 3.
    destruct (rint_spec (inject_Z q / t * 100 * 100)) as (H1 & H2 & _).
    set (a := inject_Z q / t) in *.
    set (n := inject_Z (Num.rint (a * 100 * 100))) in *.
    assert (E : n / 100 == n * (1 # 100)) by (unfold Qdiv; reflexivity).
    rewrite E. destruct IH as [IH1 IH2]. split; lra.
Qed.

Lemma sum_int_nonneg {R : Type} (qtd : R -> Z) (rows : list R) :
  Forall (fun r => (0 <= qtd r)%Z) rows -> (0 <= sum_int qtd rows)%Z.
Proof.
  unfold sum_int. induction 1 as [|x l Hx Hl IH]; [cbn; lia|].
  rewrite foldZ_cons. lia.
Qed.

Lemma sum_int_bounds {R : Type} (qtd : R -> Z) (rows : list R) :
  Forall (fun r => (0 <= qtd r)%Z) rows ->
  forall r, In r rows -> (0 <= qtd r <= sum_int qtd rows)%Z.
Proof.
  induction 1 as [|x l Hx Hl IH]; intros r Hin; [destruct Hin|].
  pose proof (sum_int_nonneg qtd l Hl) as Hs.
  unfold sum_int in *. rewrite foldZ_cons.
  destruct Hin as [<-|Hin]; [lia|].
  specialize (IH r Hin). lia.
Qed.

Section Rows.

(** A frame with a count column and a percentage column filled by
    [Qtd / Qtd.sum() * 100] rounded to two places. *)
Context {R : Type} (qtd : R -> Z) (pct : R -> Num.pyfloat) (rows : list R).

Hypothesis pct_def :
  Forall (fun r => pct r = percentual (qtd r) (sum_int qtd rows)) rows.
Hypothesis qtd_nonneg : Forall (fun r => (0 <= qtd r)%Z) rows.

Lemma qtd_le_total (r : R) : In r rows -> (0 <= qtd r <= sum_int qtd rows)%Z.
Proof. apply sum_int_bounds. exact qtd_nonneg. Qed.

Lemma percentages_when_empty_total :
  sum_int qtd rows = 0%Z -> Forall (fun r => pct r = Num.NaN) rows.
Proof.
  intros Ht. apply Forall_forall. intros r Hr.
  rewrite (proj1 (Forall_forall _ _) pct_def r Hr), Ht.
  pose proof (qtd_le_total r Hr) as Hq. rewrite Ht in Hq.
  replace (qtd r) with 0%Z by lia. reflexivity.
Qed.

Lemma percentages_when_total :
  sum_int qtd rows <> 0%Z ->
  exists ps : list Q,
    map pct rows = map Num.Fin ps /\
    Forall (fun p => 0 <= p /\ p <= 100) ps /\
    100 - inject_Z (Z.of_nat (List.length rows)) * (1 # 200) <=
    fold_left Qplus ps 0 /\
    fold_left Qplus ps 0 <=
    100 + inject_Z (Z.of_nat (List.length rows)) * (1 # 200).
Proof.
  intros Ht.
  assert (Tpos : (0 < sum_int qtd rows)%Z).
  { pose proof (sum_int_nonneg qtd rows qtd_nonneg). lia. }
  pose proof qtd_le_total as Hle.
  pose proof (proj1 (Forall_forall _ _) pct_def) as Hpct.
  set (T := sum_int qtd rows) in Ht, Tpos, Hle, Hpct |- *.
  set (f := fun q => inject_Z (Num.rint (inject_Z q / inject_Z T * 100 * 100))
                     / 100).
  exists (map (fun r => f (qtd r)) rows).
  split; [|split].
  - rewrite map_map. apply map_ext_in. intros r Hr.
    rewrite (Hpct r Hr). apply percentual_finite. exact Ht.
  - apply Forall_forall. intros p Hp.
    apply in_map_iff in Hp as (r & <- & Hr).
    pose proof (Hle r Hr) as Hq.
    destruct (share_bounds (qtd r) T Hq Tpos) as [S1 S2].
    set (a := inject_Z (qtd r) / inject_Z T) in *.
    assert (Hn : (0 <= Num.rint (a * 100 * 100) <= 10000)%Z).
    { apply rint_range; [change (inject_Z 0) with 0 |
                         change (inject_Z 10000) with 10000]; lra. }
    unfold f. fold a.
    destruct Hn as [N1 N2]. rewrite Zle_Qle in N1, N2.
    change (inject_Z 0) with 0 in N1.
    change (inject_Z 10000) with 10000 in N2.
    set (n := inject_Z (Num.rint (a * 100 * 100))) in *.
    assert (E : n / 100 == n * (1 # 100)) by (unfold Qdiv; reflexivity).
    rewrite E. split; lra.
  - assert (Efold : forall l : list R,
              fold_left Qplus (map (fun r => f (qtd r)) l) 0 =
              fold_left (fun acc q => acc + f q) (map qtd l) 0).
    { intros l. rewrite (foldQ_map f qtd).
      rewrite (foldQ_map (fun x => x) (fun r => f (qtd r))). reflexivity. }
    rewrite Efold.
    pose proof (sum_rounded_shares (inject_Z T) (map qtd rows)) as Hs.
    cbn zeta in Hs. fold f in Hs.
    rewrite sum_shares, length_map in Hs.
    assert (ET : fold_left (fun acc q => (acc + q)%Z) (map qtd rows) 0%Z = T).
    { unfold T, sum_int. now rewrite (foldZ_map (fun q => q) qtd). }
    rewrite ET in Hs.
    assert (E1 : inject_Z T / inject_Z T == 1).
    { apply Qmult_inv_r. intros E0. unfold Qeq in E0. cbn in E0. lia. }
    rewrite E1 in Hs. destruct Hs as [Hs1 Hs2]. split; lra.
Qed.

End Rows.

Lemma percentages_coherent {R : Type} (qtd : R -> Z) (pct : R -> Num.pyfloat)
  (rows : list R) :
  Forall (fun r => pct r = percentual (qtd r) (sum_int qtd rows)) rows ->
  Forall (fun r => (0 <= qtd r)%Z) rows ->
  Partes.percentuais_coerentes qtd pct rows.
Proof.
  intros Hp Hq. split.
  - now apply percentages_when_empty_total.
  - now apply percentages_when_total.
Qed.

Lemma count_nonneg {R A : Type} (col : R -> option A) (g : list R) :
  (0 <= count col g)%Z.
Proof. unfold count. lia. Qed.

Section Counts.

Context {K : Type} `{Key K} (key : ExamRecord -> option K).

(** The counts of the groups add up to the named records that have a
    key. *)
Lemma groupby_count_total (df : list ExamRecord) :
  sum_int (fun kg => count Nome_Paciente (snd kg)) (groupby key df) =
  count Nome_Paciente (filter (fun r => notna (key r)) df).
Proof.
  unfold sum_int. rewrite (count_fold _ (filter _ df)).
  rewrite <- (groupby_total_Z key). apply foldZ_ext.
  intros kg. apply count_fold.
Qed.

End Counts.

Lemma Modalidade_notna (df : list ExamRecord) :
  filter (fun r => notna (Modalidade r)) df = df.
Proof. apply filter_all. intros r _. reflexivity. Qed.

Lemma dist_convenio_shape (df : list ExamRecord) :
  Forall (fun r => DistConvenio.Percentual r =
                   percentual (DistConvenio.Qtd r)
                     (sum_int DistConvenio.Qtd (dist_convenio df)))
         (dist_convenio df) /\
  Forall (fun r => (0 <= DistConvenio.Qtd r)%Z) (dist_convenio df) /\
  sum_int DistConvenio.Qtd (dist_convenio df) =
  count Nome_Paciente (filter (fun r => notna (Convenio r)) df).
Proof.
  unfold dist_convenio.
  set (groups := groupby Convenio df).
  set (total := sum_int (fun kg => count Nome_Paciente (snd kg)) groups).
  match goal with
  | |- context [sort_values_desc _ (map ?m groups)] => set (mk := m)
  end.
  assert (Esum : sum_int DistConvenio.Qtd
                   (sort_values_desc DistConvenio.Qtd (map mk groups)) = total).
  { unfold sum_int.
    rewrite (foldZ_perm _ _ _ (sort_values_desc_perm DistConvenio.Qtd _)).
    rewrite foldZ_map. apply foldZ_ext. intros [c g]. reflexivity. }
  rewrite Esum. repeat split.
  - apply Forall_forall. intros r Hr.
    apply (Permutation_in _ (sort_values_desc_perm DistConvenio.Qtd _)) in Hr.
    apply in_map_iff in Hr as ([c g] & <- & _). reflexivity.
  - apply Forall_forall. intros r Hr.
    apply (Permutation_in _ (sort_values_desc_perm DistConvenio.Qtd _)) in Hr.
    apply in_map_iff in Hr as ([c g] & <- & _). apply count_nonneg.
  - apply groupby_count_total.
Qed.

Lemma dist_modalidade_shape (df : list ExamRecord) :
  Forall (fun r => DistModalidade.Percentual r =
                   percentual (DistModalidade.Qtd r)
                     (sum_int DistModalidade.Qtd (dist_modalidade df)))
         (dist_modalidade df) /\
  Forall (fun r => (0 <= DistModalidade.Qtd r)%Z) (dist_modalidade df) /\
  sum_int DistModalidade.Qtd (dist_modalidade df) = count Nome_Paciente df.
Proof.
  unfold dist_modalidade.
  set (groups := groupby Modalidade df).
  set (total := sum_int (fun kg => count Nome_Paciente (snd kg)) groups).
  match goal with
  | |- context [sort_values_desc _ (map ?m groups)] => set (mk := m)
  end.
  assert (Esum : sum_int DistModalidade.Qtd
                   (sort_values_desc DistModalidade.Qtd (map mk groups))
                 = total).
  { unfold sum_int.
    rewrite (foldZ_perm _ _ _ (sort_values_desc_perm DistModalidade.Qtd _)).
    rewrite foldZ_map. apply foldZ_ext. intros [c g]. reflexivity. }
  rewrite Esum. repeat split.
  - apply Forall_forall. intros r Hr.
    apply (Permutation_in _ (sort_values_desc_perm DistModalidade.Qtd _)) in Hr.
    apply in_map_iff in Hr as ([c g] & <- & _). reflexivity.
  - apply Forall_forall. intros r Hr.
    apply (Permutation_in _ (sort_values_desc_perm DistModalidade.Qtd _)) in Hr.
    apply in_map_iff in Hr as ([c g] & <- & _). apply count_nonneg.
  - unfold total, groups. rewrite groupby_count_total.
    now rewrite Modalidade_notna.
Qed.

(** X6: in the payer distribution and in the modality distribution the
    percentage column holds the shares of the count column: when no
    record of the distribution has a patient name every percentage is NaN
    (0 / 0); otherwise every percentage is a finite number between 0 and
    100, and the percentages of a distribution with n rows add up to 100
    within n times 0.005, the rounding of each one to two places. *)
Theorem distribution_percentages (df : list ExamRecord) :
  Partes.percentuais_coerentes DistConvenio.Qtd DistConvenio.Percentual
    (dist_convenio df) /\
  Partes.percentuais_coerentes DistModalidade.Qtd DistModalidade.Percentual
    (dist_modalidade df).
Proof.
  split.
  - destruct (dist_convenio_shape df) as (Hp & Hq & _).
    now apply percentages_coherent.
  - destruct (dist_modalidade_shape df) as (Hp & Hq & _).
    now apply percentages_coherent.
Qed.

(** X7: the counts of the modality distribution add up to the number of
    records with a patient name, those of the payer distribution to the
    number of records with a patient name and a payer: the modality
    grouping loses no record, the classifier giving every record a
    label, and the payer grouping loses the records without a payer. *)
Theorem distribution_totals (df : list ExamRecord) :
  sum_int DistModalidade.Qtd (dist_modalidade df) = count Nome_Paciente df /\
  sum_int DistConvenio.Qtd (dist_convenio df) =
  count Nome_Paciente (filter (fun r => notna (Convenio r)) df).
Proof.
  split; [apply dist_modalidade_shape | apply dist_convenio_shape].
Qed.

End DistFacts.

(** ** The labels of the classifier *)

Module ModalityFacts.

Import Str Classifier StrFacts Pandas GroupFacts Views SortFacts.

Lemma append_assoc (a b c : string) : ((a ++ b) ++ c = a ++ b ++ c)%string.
Proof. induction a as [|x a IH]; cbn; [reflexivity | now rewrite IH]. Qed.

(** A pattern inside a pattern inside a text is inside the text. *)
Lemma occurs_trans (p q s : string) :
  occurs p q = true -> occurs q s = true -> occurs p s = true.
Proof.
  rewrite !occurs_spec. intros (a & b & ->) (c & d & ->).
  exists (c ++ a)%string, (b ++ d)%string.
  now rewrite !append_assoc.
Qed.

Lemma occurs_absent (p q s : string) :
  occurs p q = true -> occurs p s = false -> occurs q s = false.
Proof.
  intros Hpq Hps. destruct (occurs q s) eqn:E; [|reflexivity].
  rewrite (occurs_trans p q s Hpq E) in Hps. discriminate.
Qed.

Lemma categorizar_modalidade_range (exame : option string) :
  In (categorizar_modalidade exame)
     ["Mamografia"; "Densitometria"; "Ultrassonografia"; "Raio X";
      "Doppler"; "Outros"]%string.
Proof.
  destruct exame as [e|]; [|cbn; auto 10].
  unfold categorizar_modalidade, modalidades. cbn [scan].
  repeat (match goal with
          | |- context [occurs ?p ?s] => destruct (occurs p s)
          end; [cbn; auto 10|]).
  cbn; auto 10.
Qed.

(** X8: the keys DOPPLER VASCULAR and ECODOPPLER of the table never decide
    a classification: each contains the key DOPPLER, which stands before
    them, so the scan of the table gives for every text what the scan of
    its first eight entries gives. *)
Theorem doppler_variants_never_decide (exame_upper : string) :
  scan modalidades exame_upper = scan (firstn 8 modalidades) exame_upper.
Proof.
  unfold modalidades. cbn [firstn scan].
  repeat (match goal with
          | |- context [if occurs ?p exame_upper then _ else _] =>
              destruct (occurs p exame_upper) eqn:?; [reflexivity|]
          end).
  match goal with
  | D : occurs "DOPPLER" exame_upper = false |- _ =>
      rewrite (occurs_absent "DOPPLER" "DOPPLER VASCULAR" _ eq_refl D),
              (occurs_absent "DOPPLER" "ECODOPPLER" _ eq_refl D)
  end.
  reflexivity.
Qed.

Lemma dist_modalidade_labels_perm (df : list ExamRecord) :
  Permutation (map DistModalidade.Modalidade (dist_modalidade df))
              (map fst (groupby Modalidade df)).
Proof.
  destruct (dist_modalidade_rows df) as (rows & E & Hk & _).
  rewrite E, <- Hk. apply Permutation_map.
  apply (sort_values_desc_perm DistModalidade.Qtd).
Qed.

Lemma dist_modalidade_labels_NoDup (df : list ExamRecord) :
  NoDup (map DistModalidade.Modalidade (dist_modalidade df)).
Proof.
  apply (Permutation_NoDup (Permutation_sym (dist_modalidade_labels_perm df))).
  apply groupby_keys_NoDup.
Qed.

Lemma dist_modalidade_labels_range (df : list ExamRecord) :
  incl (map DistModalidade.Modalidade (dist_modalidade df))
       ["Mamografia"; "Densitometria"; "Ultrassonografia"; "Raio X";
        "Doppler"; "Outros"]%string.
Proof.
  intros x Hx. apply (Permutation_in _ (dist_modalidade_labels_perm df)) in Hx.
  apply groupby_keys_In in Hx as (r & _ & Hr).
  unfold Modalidade in Hr. injection Hr as <-.
  apply categorizar_modalidade_range.
Qed.

(** X9: the modality distribution has one row per label, every label is
    one of the six the classifier can return, and so it never has more
    than six rows. *)
Theorem dist_modalidade_at_most_six (df : list ExamRecord) :
  NoDup (map DistModalidade.Modalidade (dist_modalidade df)) /\
  incl (map DistModalidade.Modalidade (dist_modalidade df))
       ["Mamografia"; "Densitometria"; "Ultrassonografia"; "Raio X";
        "Doppler"; "Outros"]%string /\
  (List.length (dist_modalidade df) <= 6)%nat.
Proof.
  pose proof (dist_modalidade_labels_NoDup df) as N.
  pose proof (dist_modalidade_labels_range df) as I.
  split; [exact N|]. split; [exact I|].
  rewrite <- (length_map DistModalidade.Modalidade).
  exact (NoDup_incl_length N I).
Qed.

End ModalityFacts.

(** ** A month whose gross sum is 0 *)

Module LucroFacts.

Import Pandas Views ViewFacts.

Local Open Scope Q_scope.

(** X10: the division of line 125 has no guard.  In a row of the monthly
    summary whose gross sum is 0 the profit percentage is never a finite
    number: it is plus infinity when the net sum is positive, minus
    infinity when it is negative, and NaN when it is 0 as well. *)
Theorem resumo_zero_gross_not_finite (na : na_policy) (df : list ExamRecord)
  (row : Resumo.row) :
  In row (resumo_mensal na df) ->
  Resumo.Receita_Bruta row == 0 ->
  (0 < Resumo.Receita_Liquida row ->
   Resumo.Percentual_Lucro row = Num.PInf) /\
  (Resumo.Receita_Liquida row < 0 ->
   Resumo.Percentual_Lucro row = Num.NInf) /\
  (Resumo.Receita_Liquida row == 0 ->
   Resumo.Percentual_Lucro row = Num.NaN).
Proof.
  intros Hin Hb. rewrite resumo_rows in Hin.
  apply in_map_iff in Hin as ([m g] & <- & _).
  cbn [fst snd Resumo.Receita_Bruta Resumo.Receita_Liquida
       Resumo.Percentual_Lucro] in *.
  unfold Num.fdiv. rewrite (proj2 (Qeq_bool_iff _ _) Hb).
  destruct (Qlt_le_dec 0 (sum RDF g)) as [Hpos|Hle].
  - repeat split; intros H; first [reflexivity | lra].
  - destruct (Qlt_le_dec (sum RDF g) 0) as [Hneg|Hge].
    + repeat split; intros H; first [reflexivity | lra].
    + repeat split; intros H; first [reflexivity | lra].
Qed.

(** X10 at a month with one exam, gross 0 and net 50. *)
Lemma resumo_zero_gross_not_finite_fev :
  let df := [ Amostra.registro (Some "Bia") Amostra.fev03 (Some "CORTESIA")
                (Some "RAIO X TORAX") (Some 0) (Some 50) ] in
  let row := {| Resumo.Mes := Some "2024-02"%string;
                Resumo.Qtd_Exames := 1;
                Resumo.Receita_Bruta := 0;
                Resumo.Receita_Liquida := 50;
                Resumo.Percentual_Lucro := Num.PInf |} in
  In row (resumo_mensal NaKept df) /\
  Resumo.Receita_Bruta row == 0 /\
  (0 < Resumo.Receita_Liquida row ->
   Resumo.Percentual_Lucro row = Num.PInf) /\
  (Resumo.Receita_Liquida row < 0 ->
   Resumo.Percentual_Lucro row = Num.NInf) /\
  (Resumo.Receita_Liquida row == 0 ->
   Resumo.Percentual_Lucro row = Num.NaN).
Proof.
  intros df row.
  assert (Hin : In row (resumo_mensal NaKept df))
    by (vm_compute; left; reflexivity).
  assert (Hb : Resumo.Receita_Bruta row == 0) by reflexivity.
  split; [exact Hin|]. split; [exact Hb|].
  exact (resumo_zero_gross_not_finite NaKept df row Hin Hb).
Defined.

End LucroFacts.

(** ** The controls of the page and what they select *)

Module PageFacts.

Import Data Js Pagina Pandas SumFacts GroupFacts JsFacts SortFacts.
Import ModalityFacts Views ViewFacts.

Section Unicos.

Context {A : Type} (dec : forall x y : A, {x = y} + {x <> y}).

Lemma unicos_acc (l acc : list A) :
  NoDup acc ->
  NoDup (fold_left (fun vistos x =>
                      if in_dec dec x vistos then vistos
                      else (vistos ++ [x])%list) l acc) /\
  forall x,
    In x (fold_left (fun vistos x =>
                       if in_dec dec x vistos then vistos
                       else (vistos ++ [x])%list) l acc) <->
    In x acc \/ In x l.
Proof.
  revert acc. induction l as [|a l IH]; intros acc Hnd; cbn [fold_left].
  - split; [exact Hnd|]. intros x. cbn [In]. tauto.
  - destruct (in_dec dec a acc) as [Hin|Hnin].
    + destruct (IH acc Hnd) as [N I]. split; [exact N|].
      intros x. rewrite I. cbn [In]. split; [tauto|].
      intros [H|[<-|H]]; tauto.
    + assert (Hnd' : NoDup (acc ++ [a])%list).
      { apply (Permutation_NoDup (Permutation_cons_append acc a)).
        now constructor. }
      destruct (IH _ Hnd') as [N I]. split; [exact N|].
      intros x. rewrite I, in_app_iff. cbn [In]. tauto.
Qed.

Lemma unicos_NoDup (l : list A) : NoDup (unicos dec l).
Proof. apply unicos_acc. constructor. Qed.

Lemma unicos_In (l : list A) (x : A) : In x (unicos dec l) <-> In x l.
Proof.
  unfold unicos. rewrite (proj2 (unicos_acc l [] (NoDup_nil A))).
  cbn [In]. tauto.
Qed.

Lemma unicos_id_acc (l acc : list A) :
  NoDup (acc ++ l)%list ->
  fold_left (fun vistos x =>
               if in_dec dec x vistos then vistos
               else (vistos ++ [x])%list) l acc = (acc ++ l)%list.
Proof.
  revert acc. induction l as [|a l IH]; intros acc Hnd; cbn [fold_left].
  - now rewrite app_nil_r.
  - destruct (in_dec dec a acc) as [Hin|Hnin].
    + apply NoDup_remove_2 in Hnd. elim Hnd. apply in_app_iff. now left.
    + rewrite IH; rewrite <- app_assoc; [reflexivity | exact Hnd].
Qed.

(** A list without repetitions goes through [new Set] unchanged. *)
Lemma unicos_id (l : list A) : NoDup l -> unicos dec l = l.
Proof. intros Hnd. apply (unicos_id_acc l []). exact Hnd. Qed.

End Unicos.

Lemma NoDup_map_Some {A : Type} (l : list A) :
  NoDup l -> NoDup (map Some l).
Proof.
  induction 1 as [|x l Hnin Hnd IH]; cbn [map]; constructor; [|exact IH].
  intros Hin. apply in_map_iff in Hin as (y & E & Hy).
  injection E as ->. contradiction.
Qed.

Lemma has_key_eqb {R : Type} (k : R -> string) (c : string) (x : R) :
  has_key (fun x => Some (k x)) c x = (k x =? c)%string.
Proof.
  unfold has_key. destruct (key_eq_dec (k x) c) as [->|n].
  - now rewrite String.eqb_refl.
  - symmetry. now apply String.eqb_neq.
Qed.

(** The rows of a payer, payer by payer, are the rows. *)
Lemma convenio_partition (P : Fine.row -> bool) (rows : list Fine.row)
  (cs : list string) :
  NoDup cs ->
  (forall x, In x rows -> In (Fine.Convenio x) cs) ->
  Permutation
    (List.concat
       (map (fun c => filter (fun x => (Fine.Convenio x =? c)%string && P x)
                             rows) cs))
    (filter P rows).
Proof.
  intros Hnd Hall.
  pose proof (concat_groups_perm (fun x => Some (Fine.Convenio x)) cs
                (filter P rows) Hnd) as Hp.
  rewrite (filter_all (fun r => existsb _ cs)) in Hp.
  - rewrite <- Hp. apply Permutation_refl'. f_equal.
    apply map_ext. intros c. rewrite filter_filter.
    apply filter_ext. intros x. rewrite has_key_eqb. apply andb_comm.
  - intros x Hx. apply filter_In in Hx as [Hx _].
    apply existsb_exists. exists (Fine.Convenio x).
    split; [now apply Hall|]. rewrite has_key_eqb. apply String.eqb_refl.
Qed.

(** The part of the test of [aplicarFiltros] that reads the month select
    and the check boxes. *)
Lemma rows_sem_convenio (allData : data_json) (f : Filtros) :
  Data.exames_mes_convenio_modalidade
    (aplicarFiltros allData
       {| convenio := ""; mes := mes f; modalidades := modalidades f |}) =
  filter (fun x =>
            (negb (truthy (mes f)) || mes_igual (Fine.Mes x) (mes f)) &&
            (negb (0 <? List.length (modalidades f))%nat ||
             includes (modalidades f) (Fine.Modalidade x)))
         (Data.exames_mes_convenio_modalidade allData).
Proof.
  rewrite aplicarFiltros_filter. apply filter_ext. intros x.
  cbn [convenio mes modalidades]. reflexivity.
Qed.

Lemma rows_com_convenio (allData : data_json) (f : Filtros) (c : string) :
  c <> ""%string ->
  Data.exames_mes_convenio_modalidade
    (aplicarFiltros allData
       {| convenio := c; mes := mes f; modalidades := modalidades f |}) =
  filter (fun x =>
            (Fine.Convenio x =? c)%string &&
            ((negb (truthy (mes f)) || mes_igual (Fine.Mes x) (mes f)) &&
             (negb (0 <? List.length (modalidades f))%nat ||
              includes (modalidades f) (Fine.Modalidade x))))
         (Data.exames_mes_convenio_modalidade allData).
Proof.
  intros Hc. rewrite aplicarFiltros_filter. apply filter_ext. intros x.
  cbn [convenio mes modalidades].
  assert (Ht : truthy c = true).
  { unfold truthy. apply negb_true_iff. now apply String.eqb_neq. }
  rewrite Ht. cbn [negb orb]. now rewrite andb_assoc.
Qed.

Lemma opcoes_convenio_cover (allData : data_json) :
  NoDup (opcoes_convenio (preencherFiltros allData)) /\
  forall c,
    In c (opcoes_convenio (preencherFiltros allData)) <->
    exists x, In x (Data.exames_mes_convenio_modalidade allData) /\
              Fine.Convenio x = c.
Proof.
  cbn [preencherFiltros opcoes_convenio]. split; [apply unicos_NoDup|].
  intros c. rewrite unicos_In, in_map_iff. split.
  - intros (x & E & Hx). now exists x.
  - intros (x & Hx & E). now exists x.
Qed.

(** X11: the payer options split the table.  When no row of the table
    has the empty text as its payer, the exam counts the KPI shows under
    each payer offered by the select, the month select and the check
    boxes left as they are, add up to the count it shows with the payer
    select on "Todos". *)
Theorem payer_options_partition (allData : data_json) (f : Filtros) :
  Forall (fun x => Fine.Convenio x <> ""%string)
         (Data.exames_mes_convenio_modalidade allData) ->
  let com c :=
    atualizarKPIs
      (aplicarFiltros allData
         {| convenio := c; mes := mes f; modalidades := modalidades f |}) in
  fold_left (fun acc c => acc + qtd (com c))
            (opcoes_convenio (preencherFiltros allData)) 0 =
  qtd (com ""%string).
Proof.
  intros Hne com.
  destruct (opcoes_convenio_cover allData) as [Hnd Hin].
  set (cs := opcoes_convenio (preencherFiltros allData)) in *.
  set (rows := Data.exames_mes_convenio_modalidade allData) in *.
  set (P := fun x : Fine.row =>
              (negb (truthy (mes f)) || mes_igual (Fine.Mes x) (mes f)) &&
              (negb (0 <? List.length (modalidades f))%nat ||
               includes (modalidades f) (Fine.Modalidade x))).
  assert (Hcs : forall c, In c cs -> c <> ""%string).
  { intros c Hc. apply Hin in Hc as (x & Hx & <-).
    rewrite Forall_forall in Hne. now apply Hne. }
  assert (Hperm : Permutation
            (List.concat
               (map (fun c => filter (fun x => (Fine.Convenio x =? c)%string
                                               && P x) rows) cs))
            (filter P rows)).
  { apply convenio_partition; [exact Hnd|].
    intros x Hx. apply Hin. now exists x. }
  assert (Hall : Data.exames_mes_convenio_modalidade
                   (aplicarFiltros allData
                      {| convenio := ""; mes := mes f;
                         modalidades := modalidades f |}) = filter P rows)
    by apply rows_sem_convenio.
  assert (Hone : forall c, In c cs ->
            Data.exames_mes_convenio_modalidade
              (aplicarFiltros allData
                 {| convenio := c; mes := mes f;
                    modalidades := modalidades f |}) =
            filter (fun x => (Fine.Convenio x =? c)%string && P x) rows).
  { intros c Hc. apply rows_com_convenio. now apply Hcs. }
  unfold com, atualizarKPIs. cbn [qtd]. rewrite Hall.
  rewrite <- (foldZ_perm _ _ _ Hperm), <- foldZ_concat.
  rewrite <- (foldZ_map (fun v => v)
               (fun c => fold_left (fun sum x => sum + Fine.Qtd x)
                           (Data.exames_mes_convenio_modalidade
                              (aplicarFiltros allData
                                 {| convenio := c; mes := mes f;
                                    modalidades := modalidades f |})) 0)).
  rewrite <- (foldZ_map (fun v => v)
               (fun c => fold_left (fun a x => a + Fine.Qtd x)
                           (filter (fun x => (Fine.Convenio x =? c)%string
                                             && P x) rows) 0)).
  f_equal. apply map_ext_in. intros c Hc. now rewrite (Hone c Hc).
Qed.

(** X11 at three exams of January 2024, two of the payer Alfa and one of
    the payer Beta: 2 + 1 = 3. *)
Lemma payer_options_partition_dois_convenios :
  let df := [ Amostra.registro (Some "Ana") Amostra.jan15 (Some "Beta")
                (Some "RAIO X TORAX") (Some 100%Q) (Some 90%Q);
              Amostra.registro (Some "Bia") Amostra.jan20 (Some "Alfa")
                (Some "ULTRASSOM ABDOME") (Some 200%Q) (Some 180%Q);
              Amostra.registro (Some "Caio") Amostra.jan20 (Some "Alfa")
                (Some "RAIO X TORAX") (Some 100%Q) (Some 90%Q) ] in
  let allData := agregar NaKept "2024-03-01 08:00:00" df in
  let f := sem_filtros in
  Forall (fun x => Fine.Convenio x <> ""%string)
         (Data.exames_mes_convenio_modalidade allData) /\
  opcoes_convenio (preencherFiltros allData) = ["Alfa"; "Beta"]%string /\
  let com c :=
    atualizarKPIs
      (aplicarFiltros allData
         {| convenio := c; mes := mes f; modalidades := modalidades f |}) in
  fold_left (fun acc c => acc + qtd (com c))
            (opcoes_convenio (preencherFiltros allData)) 0 =
  qtd (com ""%string).
Proof.
  intros df allData f.
  assert (H : Forall (fun x => Fine.Convenio x <> ""%string)
                     (Data.exames_mes_convenio_modalidade allData)).
  { apply Forall_forall. intros x Hx. vm_compute in Hx.
    destruct Hx as [<-|[<-|[<-|[]]]]; discriminate. }
  split; [exact H|]. split; [reflexivity|].
  exact (payer_options_partition allData f H).
Defined.

Lemma Ano_Mes_truthy (na : na_policy) (r : ExamRecord) (m : string) :
  Ano_Mes na r = Some m -> truthy m = true.
Proof.
  unfold Ano_Mes, period_str.
  destruct (Data_Realizacao r) as [t|]; [|destruct na];
    intros E; inversion E; reflexivity.
Qed.

Lemma flat_map_truthy (ks : list string) :
  (forall k, In k ks -> truthy k = true) ->
  flat_map (fun p : option string =>
              match p with
              | Some s => if truthy s then [s] else []
              | None => []
              end) (map Some ks) = ks.
Proof.
  induction ks as [|k ks IH]; intros Hk; cbn [map flat_map]; [reflexivity|].
  rewrite (Hk k (or_introl eq_refl)), IH; [reflexivity|].
  intros k' Hk'. apply Hk. now right.
Qed.

Lemma opcoes_mes_keys (na : na_policy) (agora : string)
  (df : list ExamRecord) :
  opcoes_mes (preencherFiltros (agregar na agora df)) =
  map fst (groupby (Ano_Mes na) df).
Proof.
  cbn [preencherFiltros opcoes_mes agregar Data.resumo_mensal].
  rewrite (resumo_rows na), map_map. cbn [Resumo.Mes].
  rewrite <- (map_map fst Some).
  rewrite unicos_id by apply NoDup_map_Some, groupby_keys_NoDup.
  apply flat_map_truthy. intros k Hk.
  apply groupby_keys_In in Hk as (r & _ & Hr).
  exact (Ano_Mes_truthy na r k Hr).
Qed.

(** X13: the options the page offers for a snapshot made by
    [processar_dados].  The month select lists the month keys of the
    records in ascending order, each once; the check boxes are the labels
    of the modality distribution, in its order (largest count first); the
    payer select lists, each once, the payers of the records that have a
    month key. *)
Theorem filter_options_of_snapshot (na : na_policy) (agora : string)
  (df : list ExamRecord) :
  let o := preencherFiltros (agregar na agora df) in
  StronglySorted (fun a b => (a <? b)%string = true) (opcoes_mes o) /\
  (forall m, In m (opcoes_mes o) <->
             exists r, In r df /\ Ano_Mes na r = Some m) /\
  opcoes_modalidade o = map DistModalidade.Modalidade (dist_modalidade df) /\
  NoDup (opcoes_convenio o) /\
  (forall c, In c (opcoes_convenio o) <->
             exists r, In r df /\ Convenio r = Some c /\
                       notna (Ano_Mes na r) = true).
Proof.
  intros o. unfold o. rewrite opcoes_mes_keys.
  split; [|split; [|split; [|split]]].
  - apply (sorted_map fst (fun a b => (a <? b)%string = true)).
    apply groupby_sorted.
  - intros m. apply groupby_keys_In.
  - cbn [preencherFiltros opcoes_modalidade agregar Data.dist_modalidade].
    apply unicos_id, dist_modalidade_labels_NoDup.
  - apply opcoes_convenio_cover.
  - intros c. rewrite (proj2 (opcoes_convenio_cover _)).
    cbn [agregar Data.exames_mes_convenio_modalidade].
    rewrite (exames_rows na). split.
    + intros (x & Hx & <-).
      apply in_map_iff in Hx as ([[[m c'] md] g] & <- & Hg).
      cbn [Fine.Convenio fst snd].
      assert (Hk : In (m, c', md)
                      (map fst (groupby (by_mes_convenio_modalidade na) df))).
      { apply in_map_iff. now exists (m, c', md, g). }
      apply groupby_keys_In in Hk as (r & Hr & Hk).
      exists r. split; [exact Hr|].
      unfold by_mes_convenio_modalidade, Modalidade in Hk.
      destruct (Ano_Mes na r) as [m'|]; [|discriminate].
      destruct (Convenio r) as [c''|]; [|discriminate].
      inversion Hk; subst. now split.
    + intros (r & Hr & Hc & Hm).
      destruct (Ano_Mes na r) as [m|] eqn:Em; [|discriminate].
      assert (Hk : In (m, c, Classifier.categorizar_modalidade
                               (Exame_Realizado r))
                      (map fst (groupby (by_mes_convenio_modalidade na) df))).
      { apply groupby_keys_In. exists r. split; [exact Hr|].
        unfold by_mes_convenio_modalidade, Modalidade. now rewrite Em, Hc. }
      apply in_map_iff in Hk as ([[[m' c'] md] g] & E & Hg).
      cbn [fst] in E. inversion E; subst.
      eexists. split; [apply in_map_iff; eexists; split;
                       [reflexivity | exact Hg]|].
      reflexivity.
Qed.

Lemma dist_modalidade_row (df : list ExamRecord) (row : DistModalidade.row) :
  In row (dist_modalidade df) ->
  DistModalidade.Qtd row =
    count Nome_Paciente
      (filter (has_key Modalidade (DistModalidade.Modalidade row)) df) /\
  DistModalidade.Receita_Bruta row =
    sum Valor_Exame
      (filter (has_key Modalidade (DistModalidade.Modalidade row)) df) /\
  DistModalidade.Receita_Liquida row =
    sum RDF (filter (has_key Modalidade (DistModalidade.Modalidade row)) df).
Proof.
  unfold dist_modalidade. intros Hin.
  apply (Permutation_in _ (sort_values_desc_perm DistModalidade.Qtd _)) in Hin.
  apply in_map_iff in Hin as ([md g] & <- & Hg).
  apply groupby_In in Hg as [-> _].
  cbn [DistModalidade.Qtd DistModalidade.Receita_Bruta
       DistModalidade.Receita_Liquida DistModalidade.Modalidade].
  repeat split.
Qed.

(** X14: the modality cards of a snapshot made by [processar_dados].
    There are at most five, one per label other than Outros, and each
    shows the number of named records and the gross and net sums of all
    records of its label: records without a payer or without a month key
    are included, and no filter changes a card. *)
Theorem cards_cover_all_records (na : na_policy) (agora : string)
  (df : list ExamRecord) :
  let cs := atualizarCards (agregar na agora df) in
  NoDup (map titulo cs) /\
  (List.length cs <= 5)%nat /\
  Forall (fun card =>
            In (titulo card)
               ["Mamografia"; "Densitometria"; "Ultrassonografia"; "Raio X";
                "Doppler"]%string /\
            card_Qtd card =
              count Nome_Paciente
                (filter (has_key Modalidade (titulo card)) df) /\
            card_Receita_Bruta card =
              sum Valor_Exame (filter (has_key Modalidade (titulo card)) df) /\
            card_Receita_Liquida card =
              sum RDF (filter (has_key Modalidade (titulo card)) df)) cs.
Proof.
  intros cs. unfold cs, atualizarCards.
  cbn [agregar Data.dist_modalidade].
  set (p := fun x => negb (DistModalidade.Modalidade x =? "Outros")%string).
  assert (Et : map titulo
                 (map (fun m =>
                         {| titulo := DistModalidade.Modalidade m;
                            card_Qtd := DistModalidade.Qtd m;
                            card_Receita_Bruta := DistModalidade.Receita_Bruta m;
                            card_Receita_Liquida :=
                              DistModalidade.Receita_Liquida m |})
                      (filter p (dist_modalidade df))) =
               filter (fun s => negb (s =? "Outros")%string)
                      (map DistModalidade.Modalidade (dist_modalidade df))).
  { rewrite map_map. cbn [titulo].
    now rewrite RecomputeFacts.filter_map_comm. }
  assert (Hfive : forall t,
            In t (filter (fun s => negb (s =? "Outros")%string)
                    (map DistModalidade.Modalidade (dist_modalidade df))) ->
            In t ["Mamografia"; "Densitometria"; "Ultrassonografia";
                  "Raio X"; "Doppler"]%string).
  { intros t Ht. apply filter_In in Ht as [Ht Hp].
    apply dist_modalidade_labels_range in Ht. cbn [In] in Ht |- *.
    destruct Ht as [<-|[<-|[<-|[<-|[<-|[<-|[]]]]]]]; auto 10.
    discriminate Hp. }
  assert (Hnd : NoDup (filter (fun s => negb (s =? "Outros")%string)
                         (map DistModalidade.Modalidade (dist_modalidade df))))
    by apply NoDup_filter, dist_modalidade_labels_NoDup.
  split; [|split].
  - rewrite Et. exact Hnd.
  - rewrite <- (length_map titulo), Et.
    exact (NoDup_incl_length Hnd Hfive).
  - apply Forall_forall. intros card Hc.
    assert (Htit : In (titulo card)
                     (filter (fun s => negb (s =? "Outros")%string)
                        (map DistModalidade.Modalidade (dist_modalidade df)))).
    { rewrite <- Et. now apply in_map. }
    split; [now apply Hfive|].
    apply in_map_iff in Hc as (row & <- & Hrow).
    apply filter_In in Hrow as [Hrow _].
    cbn [titulo card_Qtd card_Receita_Bruta card_Receita_Liquida].
    now apply dist_modalidade_row.
Qed.

End PageFacts.
